(** * Verification of [src/lambda/invoke.py]

    A shallow embedding of the response-extraction pipeline of the Lambda
    handler: the trace interpreter [get_agent_response], the knowledge-base
    scan [extract_source_list_from_kb], the citation list builder
    [source_link], the SQL-fragment extractor [extract_sql_query] and the
    orchestrating [lambda_handler].

    Python values are modelled as a tree of dictionaries, lists and atoms,
    Python text as a sequence of Unicode code points, exceptions as an
    explicit error result.  Logging and printing have no effect on what the
    functions return and are left out. *)

From Stdlib Require Import List NArith ZArith Bool Lia.
From Stdlib.Strings Require Import String Ascii Byte.
From Stdlib Require Import DecimalString.
Import ListNotations.

Set Warnings "-register-all,-abstract-large-number".

(** ** Python runtime values *)

Module Py.

Local Open Scope N_scope.

(** A [str] is a sequence of code points. *)
Definition pystr := list N.

(** An ASCII literal of the source as a [str]. *)
Definition lit (s : string) : pystr :=
  map N_of_ascii (list_ascii_of_string s).

Definition str_eqb (a b : pystr) : bool :=
  if list_eq_dec N.eq_dec a b then true else false.

(** The exception classes the program can meet.  [ClientError] stands for
    the failures of the two remote services. *)
Inductive exn :=
| KeyError
| TypeError
| AttributeError
| IndexError
| ValueError
| UnicodeDecodeError
| UnboundLocalError
| JSONDecodeError
| ClientError.

Inductive result (A : Type) :=
| Ok (a : A)
| Raise (e : exn).

Arguments Ok {A} a.
Arguments Raise {A} e.

Definition bind {A B} (m : result A) (f : A -> result B) : result B :=
  match m with
  | Ok a => f a
  | Raise e => Raise e
  end.

(** [try: m except E: h] for one exception class [E]. *)
Definition try_except {A} (m : result A) (E : exn -> bool) (h : result A)
  : result A :=
  match m with
  | Ok a => Ok a
  | Raise e => if E e then h else Raise e
  end.

(** [except Exception] catches every class above. *)
Definition Exception (e : exn) : bool := true.

Definition is_UnicodeDecodeError (e : exn) : bool :=
  match e with UnicodeDecodeError => true | _ => false end.

(** JSON-like values, as boto3 and [json.loads] hand them to the program.
    Floating-point numbers are not modelled. *)
Inductive value :=
| VNone
| VBool (b : bool)
| VInt (z : Z)
| VStr (s : pystr)
| VBytes (b : list byte)
| VList (l : list value)
| VDict (d : list (pystr * value)).

(** Dictionary lookup: the entry of the first binding of the key. *)
Fixpoint lookup (k : pystr) (d : list (pystr * value)) : option value :=
  match d with
  | [] => None
  | (k', v) :: d' => if str_eqb k k' then Some v else lookup k d'
  end.

Definition has_key (k : pystr) (d : list (pystr * value)) : bool :=
  match lookup k d with Some _ => true | None => false end.

(** [v == "k"] for a string literal. *)
Definition eq_str (v : value) (k : pystr) : bool :=
  match v with
  | VStr s => str_eqb s k
  | _ => false
  end.

Fixpoint starts_with (p s : pystr) : bool :=
  match p, s with
  | [], _ => true
  | _ :: _, [] => false
  | a :: p', b :: s' => N.eqb a b && starts_with p' s'
  end.

(** [needle in haystack] for two strings. *)
Fixpoint substring (needle hay : pystr) : bool :=
  starts_with needle hay ||
  match hay with
  | [] => false
  | _ :: hay' => substring needle hay'
  end.

(** [k in v] for a string [k]. *)
Definition contains (k : pystr) (v : value) : result bool :=
  match v with
  | VDict d => Ok (has_key k d)
  | VList l => Ok (existsb (fun e => eq_str e k) l)
  | VStr s => Ok (substring k s)
  | VNone | VBool _ | VInt _ | VBytes _ => Raise TypeError
  end.

(** [v[k]] for a string [k]. *)
Definition getitem (v : value) (k : pystr) : result value :=
  match v with
  | VDict d =>
      match lookup k d with
      | Some x => Ok x
      | None => Raise KeyError
      end
  | _ => Raise TypeError
  end.

(** [v.keys()]: only a dictionary has the method. *)
Definition keys (v : value) : result (list pystr) :=
  match v with
  | VDict d => Ok (map fst d)
  | _ => Raise AttributeError
  end.

Definition key_in (k : pystr) (ks : list pystr) : bool :=
  existsb (str_eqb k) ks.

(** The elements a [for] loop over [v] visits. *)
Definition iter (v : value) : result (list value) :=
  match v with
  | VList l => Ok l
  | VDict d => Ok (map (fun kv => VStr (fst kv)) d)
  | VStr s => Ok (map (fun c => VStr [c]) s)
  | VBytes b => Ok (map (fun x => VInt (Z.of_N (Byte.to_N x))) b)
  | VNone | VBool _ | VInt _ => Raise TypeError
  end.

(** [Py_UNICODE_ISSPACE]: the code points [str.strip] removes and the
    pattern class [\s] matches on text. *)
Definition isspace (c : N) : bool :=
  ((9 <=? c) && (c <=? 13)) || ((28 <=? c) && (c <=? 32)) ||
  (c =? 133) || (c =? 160) || (c =? 5760) ||
  ((8192 <=? c) && (c <=? 8202)) || (c =? 8232) || (c =? 8233) ||
  (c =? 8239) || (c =? 8287) || (c =? 12288).

Fixpoint lstrip (s : pystr) : pystr :=
  match s with
  | c :: s' => if isspace c then lstrip s' else s
  | [] => []
  end.

(** [s.strip()] *)
Definition strip (s : pystr) : pystr := rev (lstrip (rev (lstrip s))).

(** *** [bytes.decode("utf-8")], strict *)

Definition is_cont (b : N) : bool := (128 <=? b) && (b <=? 191).

Definition is_surrogate (c : N) : bool := (55296 <=? c) && (c <=? 57343).

Fixpoint utf8 (bs : list N) : option pystr :=
  match bs with
  | [] => Some []
  | b0 :: r0 =>
      if b0 <? 128 then option_map (cons b0) (utf8 r0)
      else if (194 <=? b0) && (b0 <=? 223) then
        match r0 with
        | b1 :: r1 =>
            if is_cont b1
            then option_map (cons ((b0 - 192) * 64 + (b1 - 128))) (utf8 r1)
            else None
        | _ => None
        end
      else if (224 <=? b0) && (b0 <=? 239) then
        match r0 with
        | b1 :: b2 :: r2 =>
            let c := (b0 - 224) * 4096 + (b1 - 128) * 64 + (b2 - 128) in
            if is_cont b1 && is_cont b2 && (2048 <=? c)
               && negb (is_surrogate c)
            then option_map (cons c) (utf8 r2)
            else None
        | _ => None
        end
      else if (240 <=? b0) && (b0 <=? 244) then
        match r0 with
        | b1 :: b2 :: b3 :: r3 =>
            let c := (b0 - 240) * 262144 + (b1 - 128) * 4096
                     + (b2 - 128) * 64 + (b3 - 128) in
            if is_cont b1 && is_cont b2 && is_cont b3
               && (65536 <=? c) && (c <=? 1114111)
            then option_map (cons c) (utf8 r3)
            else None
        | _ => None
        end
      else None
  end.

Definition utf8_decode (b : list byte) : option pystr :=
  utf8 (map Byte.to_N b).

(** [v.decode("utf-8")] *)
Definition decode (v : value) : result pystr :=
  match v with
  | VBytes b =>
      match utf8_decode b with
      | Some s => Ok s
      | None => Raise UnicodeDecodeError
      end
  | _ => Raise AttributeError
  end.

(** *** [str.split(sep)] and [str.partition(sep)] *)

(** [skip] counts the code points of a separator still to be passed over,
    [cur] holds the current piece, reversed. *)
Fixpoint split_from (sep : pystr) (skip : nat) (cur s : pystr)
  : list pystr :=
  match s with
  | [] => [rev cur]
  | c :: s' =>
      match skip with
      | S k => split_from sep k cur s'
      | O =>
          if starts_with sep s
          then rev cur :: split_from sep (List.length sep - 1)%nat [] s'
          else split_from sep 0%nat (c :: cur) s'
      end
  end.

(** [s.split(sep)] for a separator that is not empty. *)
Definition split (sep s : pystr) : list pystr :=
  split_from sep 0%nat [] s.

(** [s.partition(c)] for a separator of one code point: the text before
    its first occurrence and the text after it. *)
Fixpoint partition1 (c : N) (s : pystr) : pystr * pystr :=
  match s with
  | [] => ([], [])
  | x :: s' =>
      if N.eqb x c then ([], s')
      else let (a, b) := partition1 c s' in (x :: a, b)
  end.

(** The decimal numeral of a loop index, as an f-string prints it. *)
Definition decimal (n : nat) : pystr :=
  lit (NilZero.string_of_uint (Nat.to_uint n)).

(** Values a dictionary accepts as (parts of) a key. *)
Definition hashable (v : value) : bool :=
  match v with
  | VList _ | VDict _ => false
  | _ => true
  end.

Definition bytes_eqb (a b : list byte) : bool :=
  if list_eq_dec Byte.byte_eq_dec a b then true else false.

(** [a == b] on hashable values: booleans compare as the integers 0 and 1. *)
Definition key_eqb (a b : value) : bool :=
  match a, b with
  | VNone, VNone => true
  | VBool x, VBool y => Bool.eqb x y
  | VBool x, VInt z | VInt z, VBool x => Z.eqb (if x then 1 else 0) z
  | VInt x, VInt y => Z.eqb x y
  | VStr x, VStr y => str_eqb x y
  | VBytes x, VBytes y => bytes_eqb x y
  | _, _ => false
  end.

End Py.

Export Py.

Declare Scope py_scope.
Delimit Scope py_scope with py.
Notation "x <- m ;; k" := (bind m (fun x => k))
  (at level 61, m at next level, right associativity) : py_scope.
Notation "m ;;; k" := (bind m (fun _ => k))
  (at level 61, right associativity) : py_scope.
Open Scope py_scope.

(** ** The regular expression of [extract_sql_query]

    [(SELECT.*?)(?=\n\s*(?:Returned information|$))] under
    [re.DOTALL | re.IGNORECASE], searched with [re.search].  Each function
    below is one piece of the pattern, applied to the text that remains at
    the current position; the backtracking order is the engine's. *)

Module Re.

Local Open Scope N_scope.

Definition NL : N := 10.

Definition is_upper (p : N) : bool := (65 <=? p) && (p <=? 90).
Definition is_lower (p : N) : bool := (97 <=? p) && (p <=? 122).
Definition to_lower (p : N) : N := if is_upper p then p + 32 else p.

(** A literal [p] of the pattern against the code point [c] of the text
    under [IGNORECASE]: both ASCII cases of a letter, and the code points
    the engine folds onto [i], [s] and [k]. *)
Definition ci_match (p c : N) : bool :=
  if is_upper p || is_lower p then
    let lo := to_lower p in
    (c =? lo) || (c =? lo - 32) ||
    ((lo =? 105) && ((c =? 304) || (c =? 305))) ||
    ((lo =? 115) && (c =? 383)) ||
    ((lo =? 107) && (c =? 8490))
  else c =? p.

(** A literal word of the pattern at the current position: the text after
    it, when it matches. *)
Fixpoint match_lit (p s : pystr) : option pystr :=
  match p with
  | [] => Some s
  | pc :: p' =>
      match s with
      | c :: s' => if ci_match pc c then match_lit p' s' else None
      | [] => None
      end
  end.

Definition starts_ci (p s : pystr) : bool :=
  match match_lit p s with Some _ => true | None => false end.

Definition SELECT : pystr := lit "SELECT".
Definition Returned_information : pystr := lit "Returned information".

(** [$] without [re.MULTILINE]: the end of the text, or the position of a
    last newline. *)
Definition at_dollar (s : pystr) : bool :=
  match s with
  | [] => true
  | [c] => c =? NL
  | _ => false
  end.

(** [(?:Returned information|$)] *)
Definition alternative (s : pystr) : bool :=
  starts_ci Returned_information s || at_dollar s.

(** [\s*(?:Returned information|$)]: the star is greedy and gives back
    one code point at a time. *)
Fixpoint ws_star (s : pystr) : bool :=
  match s with
  | c :: s' => if isspace c then ws_star s' || alternative s
               else alternative s
  | [] => alternative []
  end.

(** [(?=\n\s*(?:Returned information|$))] *)
Definition lookahead (s : pystr) : bool :=
  match s with
  | c :: s' => (c =? NL) && ws_star s'
  | [] => false
  end.

(** [.*?] followed by the lookahead: the star is lazy, so the shortest
    run of code points after which the lookahead holds. *)
Fixpoint lazy_dot (s : pystr) : option pystr :=
  if lookahead s then Some []
  else match s with
       | [] => None
       | c :: s' => option_map (cons c) (lazy_dot s')
       end.

(** The whole pattern at one start position: group 1. *)
Definition match_at (s : pystr) : option pystr :=
  match match_lit SELECT s with
  | Some rest =>
      option_map (app (firstn (List.length SELECT) s)) (lazy_dot rest)
  | None => None
  end.

(** [re.search]: the match at the leftmost start position that has one. *)
Fixpoint search (s : pystr) : option pystr :=
  match match_at s with
  | Some g => Some g
  | None =>
      match s with
      | [] => None
      | _ :: s' => search s'
      end
  end.

End Re.

(** ** [invoke.py] *)

(** [extract_sql_query] on a text. *)
Definition extract_sql_text (input_string : pystr) : option pystr :=
  match Re.search input_string with
  | Some g => Some (strip g)
  | None => None
  end.

(** [extract_sql_query]: [re.search] refuses what is not a [str]. *)
Definition extract_sql_query (input_string : value)
  : result (option pystr) :=
  match input_string with
  | VStr s => Ok (extract_sql_text s)
  | _ => Raise TypeError
  end.

(** The collaborators outside the module: the formatting of a value inside
    an f-string, the [json] module, the object store and the agent
    runtime.  The program only reads from them. *)
Record Services := {
  (** [repr(v)], which is also [str(v)] for every value but a [str] *)
  repr : value -> pystr;
  (** [json.loads(v)] *)
  json_loads : value -> result value;
  (** [json.dumps(v)] *)
  json_dumps : value -> result pystr;
  (** [s3_resource.Object(bucket, obj).get()["Body"].read()] *)
  s3_read : pystr -> pystr -> result (list byte);
  (** [agent_runtime_client.invoke_agent(..., sessionId, inputText)] *)
  agent_runtime_invoke : value -> value -> result value
}.

(** A [for] loop whose body updates the loop state or raises. *)
Fixpoint for_each {S A} (body : S -> A -> result S) (l : list A) (st : S)
  : result S :=
  match l with
  | [] => Ok st
  | x :: l' => st' <- body st x ;; for_each body l' st'
  end.

(** What [get_agent_response] returns: the bare string of its first
    [return], or the pair of its last one. *)
Inductive agent_response :=
| Diagnostic (message : pystr)
| Answer (chunk_text : pystr) (source_file_list : value).

(** Body of the loop over [response["completion"]] (lines 54-62).  The
    state is [trace_list] and [chunk_text], which is unbound until a chunk
    has been seen. *)
Definition event_step (st : list value * option pystr) (event : value)
  : result (list value * option pystr) :=
  let (trace_list, chunk_text) := st in
  keys event ;;;
  has_trace <- contains (lit "trace") event ;;
  trace_list <-
    (if has_trace : bool
     then t <- getitem event (lit "trace") ;; Ok (trace_list ++ [t])
     else Ok trace_list) ;;
  has_chunk <- contains (lit "chunk") event ;;
  chunk_text <-
    (if has_chunk : bool
     then chunk <- getitem event (lit "chunk") ;;
          chunk_bytes <- getitem chunk (lit "bytes") ;;
          text <- decode chunk_bytes ;;
          Ok (Some text)
     else Ok chunk_text) ;;
  Ok (trace_list, chunk_text).

(** Body of the loop over [trace_list] (lines 64-69): the new value of
    [sql_query_from_llm]. *)
Definition query_step (sql_query_from_llm : option pystr) (t : value)
  : result (option pystr) :=
  tr <- getitem t (lit "trace") ;;
  ks <- keys tr ;;
  if key_in (lit "orchestrationTrace") ks then
    ot <- getitem tr (lit "orchestrationTrace") ;;
    ks' <- keys ot ;;
    if key_in (lit "observation") ks' then
      obs <- getitem ot (lit "observation") ;;
      ty <- getitem obs (lit "type") ;;
      if eq_str ty (lit "ACTION_GROUP") then
        out <- getitem obs (lit "actionGroupInvocationOutput") ;;
        text <- getitem out (lit "text") ;;
        extract_sql_query text
      else Ok sql_query_from_llm
    else Ok sql_query_from_llm
  else Ok sql_query_from_llm.

(** Body of the inner loop of [extract_source_list_from_kb] (lines 87-88). *)
Definition uri_step (ref_s3_list : list value) (rl : value)
  : result (list value) :=
  location <- getitem rl (lit "location") ;;
  s3_location <- getitem location (lit "s3Location") ;;
  uri <- getitem s3_location (lit "uri") ;;
  Ok (ref_s3_list ++ [uri]).

(** Body of the outer loop of [extract_source_list_from_kb] (lines 82-89):
    [Some] is the list the function returns from inside the loop, [None]
    lets the loop go on. *)
Definition kb_step (trace : value) : result (option (list value)) :=
  tr <- getitem trace (lit "trace") ;;
  ks <- keys tr ;;
  has_observation <-
    (if key_in (lit "orchestrationTrace") ks
     then ot <- getitem tr (lit "orchestrationTrace") ;;
          ks' <- keys ot ;;
          Ok (key_in (lit "observation") ks')
     else Ok false) ;;
  if has_observation : bool then
    ot <- getitem tr (lit "orchestrationTrace") ;;
    obs <- getitem ot (lit "observation") ;;
    has_kb <- contains (lit "knowledgeBaseLookupOutput") obs ;;
    if has_kb : bool then
      kb <- getitem obs (lit "knowledgeBaseLookupOutput") ;;
      ref_list <- getitem kb (lit "retrievedReferences") ;;
      refs <- iter ref_list ;;
      ref_s3_list <- for_each uri_step refs [] ;;
      Ok (Some ref_s3_list)
    else Ok None
  else Ok None.

(** [extract_source_list_from_kb]: a loop that is left without a [return]
    gives [None]. *)
Fixpoint extract_source_list_from_kb (trace_list : list value)
  : result value :=
  match trace_list with
  | [] => Ok VNone
  | trace :: rest =>
      r <- kb_step trace ;;
      match r with
      | Some ref_s3_list => Ok (VList ref_s3_list)
      | None => extract_source_list_from_kb rest
      end
  end.

(** Text of lines 94-96: bucket and object name of a storage URI. *)
Definition bucket_and_object (input_source : value)
  : result (pystr * pystr) :=
  match input_source with
  | VStr s =>
      match nth_error (Py.split (lit "//") s) 1 with
      | Some string => Ok (partition1 47 string)
      | None => Raise IndexError
      end
  | VBytes _ => Raise TypeError
  | _ => Raise AttributeError
  end.

(** [OrderedDict.fromkeys]: one insertion.  A key that is already there
    keeps its place and its first spelling. *)
Definition pair_hashable (k : value * value) : bool :=
  hashable (fst k) && hashable (snd k).

Definition pair_eqb (a b : value * value) : bool :=
  key_eqb (fst a) (fst b) && key_eqb (snd a) (snd b).

Definition fromkeys_step (d : list (value * value)) (k : value * value)
  : result (list (value * value)) :=
  if pair_hashable k
  then Ok (if existsb (pair_eqb k) d then d else d ++ [k])
  else Raise TypeError.

Section Program.

Variable svc : Services.

(** [{v}] inside an f-string *)
Definition format_value (v : value) : pystr :=
  match v with
  | VStr s => s
  | _ => repr svc v
  end.

(** [get_agent_response] (lines 49-78). *)
Definition get_agent_response (response : value) : result agent_response :=
  has_completion <- contains (lit "completion") response ;;
  if negb has_completion then
    Ok (Diagnostic
          (lit "No completion found in response: " ++ repr svc response))
  else
    completion <- getitem response (lit "completion") ;;
    events <- iter completion ;;
    st <- for_each event_step events ([], None) ;;
    let (trace_list, chunk_text) := st : list value * option pystr in
    sql_query_from_llm <- for_each query_step trace_list None ;;
    source_file_list <-
      (match sql_query_from_llm with
       | Some (c :: q) => Ok (VStr (c :: q))
       | Some [] | None =>
           try_except (extract_source_list_from_kb trace_list)
                      Exception (Ok (VStr []))
       end) ;;
    match chunk_text with
    | Some text => Ok (Answer text source_file_list)
    | None => Raise UnboundLocalError
    end.

(** The [try] block of [source_link] (lines 100-105). *)
Definition citation (body : list byte) : result (value * value) :=
  decoded_body <- decode (VBytes body) ;;
  res <- json_loads svc (VStr decoded_body) ;;
  source_link_url <- getitem res (lit "Url") ;;
  source_title <- getitem res (lit "Topic") ;;
  Ok (source_title, source_link_url).

(** Body of the first loop of [source_link] (lines 94-107). *)
Definition source_step (source_dict_list : list (value * value))
  (input_source : value) : result (list (value * value)) :=
  loc <- bucket_and_object input_source ;;
  body <- s3_read svc (fst loc) (snd loc) ;;
  try_except (c <- citation body ;; Ok (source_dict_list ++ [c]))
             is_UnicodeDecodeError (Ok source_dict_list).

(** Body of the second loop of [source_link] (lines 110-111): the state
    is the counter of [enumerate] and [refs_str]. *)
Definition render_step (st : nat * pystr) (src : value * value)
  : nat * pystr :=
  let (i, refs_str) := st in
  let (title, link) := src in
  (S i,
   refs_str ++ decimal i ++ lit ". [" ++ format_value title ++ lit "]("
     ++ format_value link ++ lit ")" ++ [Re.NL; Re.NL]).

(** [source_link] (lines 91-112). *)
Definition source_link (input_source_list : list value) : result pystr :=
  source_dict_list <- for_each source_step input_source_list [] ;;
  unique_sources <- for_each fromkeys_step source_dict_list [] ;;
  Ok (snd (fold_left render_step unique_sources (1, []))).

(** [response, source_file_list = ...]: a string unpacks into its code
    points, when there are exactly two of them. *)
Definition unpack_pair (r : agent_response) : result (value * value) :=
  match r with
  | Answer chunk_text source_file_list =>
      Ok (VStr chunk_text, source_file_list)
  | Diagnostic [a; b] => Ok (VStr [a], VStr [b])
  | Diagnostic _ => Raise ValueError
  end.

(** Lines 130-139 of [lambda_handler]: from the streaming response to the
    [output] dictionary. *)
Definition build_output (streaming_response : value) : result value :=
  r <- get_agent_response streaming_response ;;
  p <- unpack_pair r ;;
  let (response, source_file_list) := p : value * value in
  reference_str <-
    (match source_file_list with
     | VList l => s <- source_link l ;; Ok (VStr s)
     | _ => Ok source_file_list
     end) ;;
  Ok (VDict [(lit "answer", response); (lit "source", reference_str)]).

(** [invoke_agent] (lines 38-47). *)
Definition invoke_agent (user_input session_id : value) : result value :=
  agent_runtime_invoke svc user_input session_id.

(** [lambda_handler] (lines 122-141). *)
Definition lambda_handler (event : value) : result value :=
  json_dumps svc event ;;;
  raw <- getitem event (lit "body") ;;
  body <- json_loads svc raw ;;
  query <- getitem body (lit "query") ;;
  session_id <- getitem body (lit "session_id") ;;
  streaming_response <- invoke_agent query session_id ;;
  output <- build_output streaming_response ;;
  dumped <- json_dumps svc output ;;
  Ok (VDict [(lit "statusCode", VInt 200); (lit "body", VStr dumped)]).

End Program.

(** ** Vocabulary of the specification *)

(** *** Text *)

(** [w] is the word [p] of the pattern up to letter case. *)
Definition ci_word (p w : pystr) : Prop :=
  Forall2 (fun a c => Re.ci_match a c = true) p w.

(** [w] is made of whitespace only. *)
Definition blank (w : pystr) : Prop :=
  Forall (fun c => isspace c = true) w.

(** [s] begins with the token SELECT. *)
Definition select_at (s : pystr) : Prop :=
  exists kw tl, s = kw ++ tl /\ ci_word Re.SELECT kw.

(** [s] begins with the phrase [Returned information]. *)
Definition phrase_at (s : pystr) : Prop :=
  exists ph tl, s = ph ++ tl /\ ci_word Re.Returned_information ph.

(** [t] begins with a line break that is followed, after optional
    whitespace, by the phrase or by the end of the text. *)
Definition terminator (t : pystr) : Prop :=
  exists w rest,
    t = Re.NL :: w ++ rest /\ blank w /\ (rest = [] \/ phrase_at rest).

(** [s] holds the token SELECT somewhere. *)
Definition select_occurs (s : pystr) : Prop :=
  exists pre tl, s = pre ++ tl /\ select_at tl.

(** [s] holds the token SELECT and, somewhere after it, a terminator. *)
Definition terminated_select (s : pystr) : Prop :=
  exists pre kw body post,
    s = pre ++ kw ++ body ++ post /\ ci_word Re.SELECT kw /\ terminator post.

(** [span] is the part of [s] from its first token SELECT up to the first
    terminator after that token. *)
Definition sql_span (s span : pystr) : Prop :=
  exists pre kw body post,
    s = pre ++ kw ++ body ++ post /\ span = kw ++ body /\
    ci_word Re.SELECT kw /\
    (forall p1 p2, pre = p1 ++ p2 -> p2 <> [] ->
                   ~ select_at (p2 ++ kw ++ body ++ post)) /\
    terminator post /\
    (forall b1 b2, body = b1 ++ b2 -> b2 <> [] ->
                   ~ terminator (b2 ++ post)).

(** *** Events and traces *)

(** The entry under [k] of a dictionary value. *)
Definition field (v : value) (k : string) : option value :=
  match v with
  | VDict d => lookup (lit k) d
  | _ => None
  end.

(** The [trace] records of the events, in stream order. *)
Definition collected_traces (events : list value) : list value :=
  flat_map (fun e => match field e "trace" with
                     | Some t => [t]
                     | None => []
                     end) events.

(** The observation of the orchestration trace of [t], when it has one. *)
Definition observation (t : value) : option value :=
  match field t "trace" with
  | Some tr =>
      match field tr "orchestrationTrace" with
      | Some ot => field ot "observation"
      | None => None
      end
  | None => None
  end.

(** [t] holds an observation of type ACTION_GROUP. *)
Definition is_action_group (t : value) : Prop :=
  exists obs,
    observation t = Some obs /\
    field obs "type" = Some (VStr (lit "ACTION_GROUP")).

(** [t] holds an observation of type ACTION_GROUP whose output text yields
    the query [q]. *)
Definition yields_query (t : value) (q : pystr) : Prop :=
  exists obs out text,
    observation t = Some obs /\
    field obs "type" = Some (VStr (lit "ACTION_GROUP")) /\
    field obs "actionGroupInvocationOutput" = Some out /\
    field out "text" = Some (VStr text) /\
    extract_sql_text text = Some q.

(** [t] holds an observation with a knowledge-base lookup output. *)
Definition has_kb_lookup (t : value) : Prop :=
  exists obs kb,
    observation t = Some obs /\
    field obs "knowledgeBaseLookupOutput" = Some kb.

(** The storage URI of one retrieved reference. *)
Definition uri_of (r u : value) : Prop :=
  exists location s3,
    field r "location" = Some location /\
    field location "s3Location" = Some s3 /\
    field s3 "uri" = Some u.

(** [t] holds a knowledge-base lookup whose retrieved references have the
    storage URIs [uris], in that order. *)
Definition kb_uris (t : value) (uris : list value) : Prop :=
  exists obs kb refs,
    observation t = Some obs /\
    field obs "knowledgeBaseLookupOutput" = Some kb /\
    field kb "retrievedReferences" = Some (VList refs) /\
    Forall2 uri_of refs uris.

(** The part of [kb_step] that follows the tests for an observation. *)
Definition kb_branch (obs : value) : result (option (list value)) :=
  match field obs "knowledgeBaseLookupOutput" with
  | Some kb =>
      ref_list <- getitem kb (lit "retrievedReferences") ;;
      refs <- iter ref_list ;;
      ref_s3_list <- for_each uri_step refs [] ;;
      Ok (Some ref_s3_list)
  | None => Ok None
  end.

(** A trace the query loop went through without an error. *)
Definition accepted (t : value) : Prop :=
  exists q0 q, query_step q0 t = Ok q.

(** An event the first loop goes through without an error: a dictionary
    whose chunk, when it has one, carries bytes that are UTF-8 text. *)
Definition well_formed_event (e : value) : Prop :=
  exists d,
    e = VDict d /\
    forall chunk,
      lookup (lit "chunk") d = Some chunk ->
      exists b text,
        field chunk "bytes" = Some (VBytes b) /\ utf8_decode b = Some text.

(** The response holds the event stream [events]. *)
Definition completion_of (response : value) (events : list value) : Prop :=
  field response "completion" = Some (VList events).

(** *** Citations *)

Definition record := (pystr * pystr)%type.

Definition record_eq_dec (a b : record) : {a = b} + {a <> b}.
Proof.
  decide equality; apply (list_eq_dec N.eq_dec).
Defined.

(** The records of a sequence without their later repetitions. *)
Fixpoint first_occurrences (l : list record) : list record :=
  match l with
  | [] => []
  | r :: l' => r :: remove record_eq_dec r (first_occurrences l')
  end.

(** ["{i}. [{title}]({link})\n\n"] *)
Definition reference_line (i : nat) (r : record) : pystr :=
  decimal i ++ lit ". [" ++ fst r ++ lit "](" ++ snd r ++ lit ")"
    ++ [Re.NL; Re.NL].

(** The numbered lines of a sequence of records, counted from [start]. *)
Fixpoint reference_lines (start : nat) (l : list record) : pystr :=
  match l with
  | [] => []
  | r :: l' => reference_line start r ++ reference_lines (S start) l'
  end.

Definition as_value (r : record) : value * value :=
  (VStr (fst r), VStr (snd r)).

Section Resolution.

Variable svc : Services.

(** The stored object of the key [k] has the bytes [body]. *)
Definition stored (k : value) (body : list byte) : Prop :=
  exists bucket obj,
    bucket_and_object k = Ok (bucket, obj) /\
    s3_read svc bucket obj = Ok body.

(** What the resolution of one key gives: [Some] record, or [None] for an
    object that is skipped because its bytes are not UTF-8 text. *)
Definition resolves (k : value) (o : option record) : Prop :=
  exists body,
    stored k body /\
    match o with
    | None => utf8_decode body = None
    | Some r =>
        exists text doc,
          utf8_decode body = Some text /\
          json_loads svc (VStr text) = Ok doc /\
          field doc "Url" = Some (VStr (snd r)) /\
          field doc "Topic" = Some (VStr (fst r))
    end.

(** The stored object of [k] is JSON text for a dictionary without [Url]
    or without [Topic]. *)
Definition malformed (k : value) : Prop :=
  exists body text d,
    stored k body /\
    utf8_decode body = Some text /\
    json_loads svc (VStr text) = Ok (VDict d) /\
    (lookup (lit "Url") d = None \/ lookup (lit "Topic") d = None).

(** The request [event] gets as far as the agent, which answers
    [streaming_response]. *)
Definition reaches (event streaming_response : value) : Prop :=
  exists dumped raw body query session_id,
    json_dumps svc event = Ok dumped /\
    field event "body" = Some raw /\
    json_loads svc raw = Ok body /\
    field body "query" = Some query /\
    field body "session_id" = Some session_id /\
    agent_runtime_invoke svc query session_id = Ok streaming_response.

End Resolution.

(** The records that were not skipped. *)
Definition resolved (os : list (option record)) : list record :=
  flat_map (fun o => match o with Some r => [r] | None => [] end) os.

(** ** [get_highest_agent_version_alias_id] *)

(** [if v:] *)
Definition truth (v : value) : bool :=
  match v with
  | VNone => false
  | VBool b => b
  | VInt z => negb (Z.eqb z 0)
  | VStr [] | VBytes [] | VList [] | VDict [] => false
  | VStr (_ :: _) | VBytes (_ :: _) | VList (_ :: _) | VDict (_ :: _) => true
  end.

(** [v[0]]: the dictionaries of the model have no key but text. *)
Definition getitem0 (v : value) : result value :=
  match v with
  | VList (x :: _) => Ok x
  | VStr (c :: _) => Ok (VStr [c])
  | VBytes (b :: _) => Ok (VInt (Z.of_N (Byte.to_N b)))
  | VList [] | VStr [] | VBytes [] => Raise IndexError
  | VDict _ => Raise KeyError
  | VNone | VBool _ | VInt _ => Raise TypeError
  end.

(** [v.get(k, default)] *)
Definition dict_get (v : value) (k : pystr) (default : value)
  : result value :=
  match v with
  | VDict d =>
      Ok (match lookup k d with Some x => x | None => default end)
  | _ => Raise AttributeError
  end.

(** Two operations of the runtime on a version: [v.isdigit()] and
    [int(v)]. *)
Record Numerals := {
  isdigit : value -> result bool;
  to_int : value -> result Z
}.

Section Alias.

Variable num : Numerals.

(** Body of the loop of [get_highest_agent_version_alias_id] (lines
    31-35): the state is [highest_version] and
    [highest_version_alias_id]. *)
Definition version_step (st : option Z * value) (alias_summary : value)
  : result (option Z * value) :=
  routing <- getitem alias_summary (lit "routingConfiguration") ;;
  if truth routing then
    first <- getitem0 routing ;;
    agent_version <- getitem first (lit "agentVersion") ;;
    digits <- isdigit num agent_version ;;
    if digits : bool then
      higher <-
        (match fst st with
         | None => Ok true
         | Some highest_version =>
             n <- to_int num agent_version ;;
             Ok (Z.ltb highest_version n)
         end) ;;
      if higher : bool then
        n <- to_int num agent_version ;;
        alias_id <- getitem alias_summary (lit "agentAliasId") ;;
        Ok (Some n, alias_id)
      else Ok st
    else Ok st
  else Ok st.

(** [get_highest_agent_version_alias_id] (lines 27-36). *)
Definition get_highest_agent_version_alias_id (response : value)
  : result value :=
  summaries <- dict_get response (lit "agentAliasSummaries") (VList []) ;;
  items <- iter summaries ;;
  st <- for_each version_step items (None, VNone) ;;
  Ok (snd st).

(** What one alias summary offers to the search: a version and an alias
    id, or nothing when its routing configuration is empty or its version
    is not made of digits. *)
Definition version_entry (summary : value) (o : option (Z * value))
  : Prop :=
  exists routing,
    field summary "routingConfiguration" = Some routing /\
    match o with
    | None =>
        truth routing = false \/
        exists first v,
          truth routing = true /\ getitem0 routing = Ok first /\
          field first "agentVersion" = Some v /\
          isdigit num v = Ok false
    | Some (n, alias_id) =>
        exists first v,
          truth routing = true /\ getitem0 routing = Ok first /\
          field first "agentVersion" = Some v /\
          isdigit num v = Ok true /\ to_int num v = Ok n /\
          field summary "agentAliasId" = Some alias_id
    end.

End Alias.

(** The versions on offer, in the order of the summaries. *)
Definition offers (os : list (option (Z * value))) : list (Z * value) :=
  flat_map (fun o => match o with Some e => [e] | None => [] end) os.

(** The alias summaries the search goes through: the list under
    [agentAliasSummaries], or none when the response has no such key. *)
Definition alias_summaries (response : value) (summaries : list value)
  : Prop :=
  field response "agentAliasSummaries" = Some (VList summaries) \/
  exists d,
    response = VDict d /\
    lookup (lit "agentAliasSummaries") d = None /\ summaries = [].

(** ** More vocabulary *)

(** An observation the query loop stops at: one without a type, or one of
    type ACTION_GROUP without an output or without an output text. *)
Definition incomplete_observation (obs : value) : Prop :=
  exists d,
    obs = VDict d /\
    (lookup (lit "type") d = None \/
     (lookup (lit "type") d = Some (VStr (lit "ACTION_GROUP")) /\
      (lookup (lit "actionGroupInvocationOutput") d = None \/
       exists o,
         lookup (lit "actionGroupInvocationOutput") d = Some (VDict o) /\
         lookup (lit "text") o = None))).

(** The resolution of one key to a record whose fields are any values. *)
Definition resolves_value (svc : Services) (k : value)
    (r : value * value) : Prop :=
  exists body text doc,
    stored svc k body /\
    utf8_decode body = Some text /\
    json_loads svc (VStr text) = Ok doc /\
    field doc "Url" = Some (snd r) /\
    field doc "Topic" = Some (fst r).

(** After every line break of [body] comes, past optional whitespace, a
    code point of [body] that is not the letter R. *)
Definition lines_go_on (body : pystr) : Prop :=
  forall b1 b2,
    body = b1 ++ Re.NL :: b2 ->
    exists w c b3,
      b2 = w ++ c :: b3 /\ blank w /\
      isspace c = false /\ Re.ci_match 82 c = false.

(** [a] holds no two adjacent slashes, also when a slash follows it. *)
Definition no_double_slash (a : pystr) : Prop :=
  substring (lit "//") (a ++ [47%N]) = false.

(** ** Fixtures for the examples *)

Module Fixture.

Local Open Scope string_scope.

Definition nl : string := String (ascii_of_nat 10) EmptyString.

(** An object store and a JSON reader given by tables. *)
Definition services (objects : list (pystr * pystr * list byte))
    (documents : list (pystr * value)) (agent : value) : Services :=
  {| repr := fun _ => lit "{}";
     json_loads := fun v =>
       match v with
       | VStr s =>
           match find (fun d => str_eqb s (fst d)) documents with
           | Some d => Ok (snd d)
           | None => Raise JSONDecodeError
           end
       | _ => Raise TypeError
       end;
     json_dumps := fun _ => Ok (lit "{}");
     s3_read := fun bucket obj =>
       match find (fun o => str_eqb bucket (fst (fst o))
                            && str_eqb obj (snd (fst o))) objects with
       | Some o => Ok (snd o)
       | None => Raise ClientError
       end;
     agent_runtime_invoke := fun _ _ => Ok agent |}.

Definition bytes_of (s : string) : list byte := list_byte_of_string s.

Definition dict (l : list (string * value)) : value :=
  VDict (map (fun kv => (lit (fst kv), snd kv)) l).

Definition chunk_event (s : string) : value :=
  dict [("chunk", dict [("bytes", VBytes (bytes_of s))])].

(** The record that an event carries under [trace]. *)
Definition trace_record (observation : value) : value :=
  dict [("trace",
         dict [("orchestrationTrace",
                dict [("observation", observation)])])].

Definition trace_event (observation : value) : value :=
  dict [("trace", trace_record observation)].

Definition action_group (text : string) : value :=
  dict [("type", VStr (lit "ACTION_GROUP"));
        ("actionGroupInvocationOutput", dict [("text", VStr (lit text))])].

Definition reference (uri : string) : value :=
  dict [("location", dict [("s3Location", dict [("uri", VStr (lit uri))])])].

Definition kb_lookup (uris : list string) : value :=
  dict [("type", VStr (lit "KNOWLEDGE_BASE"));
        ("knowledgeBaseLookupOutput",
         dict [("retrievedReferences", VList (map reference uris))])].

Definition stream (events : list value) : value :=
  dict [("completion", VList events)].

Definition request : value :=
  dict [("body", VStr (lit "{}"))].

Definition request_body : value :=
  dict [("query", VStr (lit "q")); ("session_id", VStr (lit "s"))].

Definition key (uri : string) : value := VStr (lit uri).

(** Services without stored objects. *)
Definition plain : Services := services [] [] VNone.

(** Services that read [request_body] from the request and whose agent
    answers with an empty dictionary. *)
Definition silent_agent : Services :=
  services [] [(lit "{}", request_body)] (VDict []).

(** A store with two citation records, one of them under two keys, an
    object that is not text and a record without [Topic]. *)
Definition library : Services :=
  services
    [(lit "b", lit "k1", bytes_of "A1");
     (lit "b", lit "k2", [xff]);
     (lit "b", lit "k3", bytes_of "A1");
     (lit "b", lit "k4", bytes_of "B2");
     (lit "b", lit "k5", bytes_of "bad")]
    [(lit "A1", dict [("Url", VStr (lit "L1")); ("Topic", VStr (lit "A"))]);
     (lit "B2", dict [("Url", VStr (lit "L2")); ("Topic", VStr (lit "B"))]);
     (lit "bad", dict [("Url", VStr (lit "L2"))])]
    VNone.

(** Two chunks around a trace, and a trace after the last chunk. *)
Definition chunks_before : list value :=
  [chunk_event "a"; trace_event (kb_lookup [])].

Definition chunks_after : list value :=
  [trace_event (action_group "x")].

(** A query in the last ACTION_GROUP trace, a lookup after it. *)
Definition query_last : list value :=
  [trace_event (action_group "nothing");
   trace_event (action_group ("SELECT 1" ++ nl ++ "Returned information: 1"));
   trace_event (kb_lookup ["s3://b/k1"]);
   chunk_event "ok"].

(** A query in the first ACTION_GROUP trace, none in the second. *)
Definition query_first : list value :=
  [trace_event (action_group ("SELECT 1" ++ nl));
   trace_event (action_group "nothing");
   trace_event (kb_lookup ["s3://b/k1"]);
   chunk_event "ok"].

(** Two knowledge-base lookups. *)
Definition two_lookups : list value :=
  [trace_event (action_group "nothing");
   trace_event (kb_lookup ["s3://b/k1"; "s3://b/k2"]);
   trace_event (kb_lookup ["s3://b/k4"]);
   chunk_event "ok"].

(** Neither a query nor a lookup. *)
Definition no_provenance : list value :=
  [trace_event (action_group "nothing"); chunk_event "ok"].

(** No chunk. *)
Definition no_chunk : list value :=
  [trace_event (kb_lookup ["s3://b/k1"])].

(** Versions written in ASCII digits. *)
Definition digit_value (c : N) : Z := Z.of_N (c - 48).

Definition ascii_digits (s : pystr) : bool :=
  match s with
  | [] => false
  | _ => forallb (fun c => (48 <=? c)%N && (c <=? 57)%N) s
  end.

Definition numerals : Numerals :=
  {| isdigit := fun v =>
       match v with
       | VStr s => Ok (ascii_digits s)
       | _ => Raise AttributeError
       end;
     to_int := fun v =>
       match v with
       | VStr s =>
           if ascii_digits s
           then Ok (fold_left (fun a c => (10 * a + digit_value c)%Z) s 0%Z)
           else Raise ValueError
       | _ => Raise TypeError
       end |}.

Definition alias (alias_id : string) (versions : list string) : value :=
  dict [("agentAliasId", VStr (lit alias_id));
        ("routingConfiguration",
         VList (map (fun v => dict [("agentVersion", VStr (lit v))])
                    versions))].

(** Four aliases: versions 2 and 10, a draft, and 10 again. *)
Definition aliases : value :=
  dict [("agentAliasSummaries",
         VList [alias "A" ["2"]; alias "B" ["10"]; alias "T" ["DRAFT"];
                alias "C" ["10"]; alias "D" []])].


(** A request whose agent answers with [query_last]. *)
Definition analyst : Services :=
  services [] [(lit "{}", request_body)] (stream query_last).

(** A chunk that is not UTF-8 text. *)
Definition broken_chunk : value :=
  dict [("chunk", dict [("bytes", VBytes [xff])])].

(** A lookup whose second reference has no location. *)
Definition broken_lookup : value :=
  dict [("type", VStr (lit "KNOWLEDGE_BASE"));
        ("knowledgeBaseLookupOutput",
         dict [("retrievedReferences",
                VList [reference "s3://b/k1"; dict []])])].

(** The digit two written as a superscript: [isdigit] accepts it, [int]
    does not. *)
Definition superscripts : Numerals :=
  {| isdigit := fun v =>
       match v with
       | VStr s => Ok (str_eqb s [178%N] || ascii_digits s)
       | _ => Raise AttributeError
       end;
     to_int := to_int numerals |}.

(** A store with a citation record, a record whose [Url] is a JSON array
    and an object that is text but not JSON. *)
Definition shelf : Services :=
  services
    [(lit "b", lit "k1", bytes_of "A1");
     (lit "b", lit "k6", bytes_of "L");
     (lit "b", lit "k7", bytes_of "junk")]
    [(lit "A1", dict [("Url", VStr (lit "L1")); ("Topic", VStr (lit "A"))]);
     (lit "L", dict [("Url", VList []); ("Topic", VStr (lit "A"))])]
    VNone.

End Fixture.

(** ** The SQL-fragment extractor *)

Section Extractor.

Import Re.

Lemma match_lit_sound p : forall s r,
  match_lit p s = Some r -> exists w, s = w ++ r /\ ci_word p w.
Proof.
  induction p as [|a p IH]; simpl; intros s r H.
  - injection H as <-. exists []. split; [reflexivity | constructor].
  - destruct s as [|c s]; [discriminate|].
    destruct (ci_match a c) eqn:Hc; [|discriminate].
    destruct (IH _ _ H) as (w & -> & Hw).
    exists (c :: w). split; [reflexivity | constructor; assumption].
Qed.

Lemma match_lit_complete p w : ci_word p w ->
  forall r, match_lit p (w ++ r) = Some r.
Proof.
  induction 1 as [|a c p w Hc _ IH]; intros r; simpl.
  - reflexivity.
  - rewrite Hc. apply IH.
Qed.

Lemma starts_ci_spec p s :
  starts_ci p s = true <-> exists w tl, s = w ++ tl /\ ci_word p w.
Proof.
  unfold starts_ci. split.
  - destruct (match_lit p s) as [r|] eqn:H; [|discriminate].
    intros _. destruct (match_lit_sound _ _ _ H) as (w & -> & Hw).
    exists w, r. split; [reflexivity | assumption].
  - intros (w & tl & -> & Hw). rewrite (match_lit_complete _ _ Hw).
    reflexivity.
Qed.

Lemma ci_word_length p w : ci_word p w -> List.length w = List.length p.
Proof.
  intros H. symmetry. exact (Forall2_length H).
Qed.

Lemma alternative_sound s :
  alternative s = true ->
  exists w rest, s = w ++ rest /\ blank w /\ (rest = [] \/ phrase_at rest).
Proof.
  unfold alternative. intros H. apply orb_true_iff in H as [H|H].
  - exists [], s. split; [reflexivity|]. split; [constructor|].
    right. apply starts_ci_spec. exact H.
  - destruct s as [|c [|d s]]; simpl in H; try discriminate.
    + exists [], []. repeat split; [constructor | left; reflexivity].
    + apply N.eqb_eq in H. subst c. exists [NL], [].
      repeat split; [|left; reflexivity].
      constructor; [reflexivity | constructor].
Qed.

Lemma alternative_ws_star s : alternative s = true -> ws_star s = true.
Proof.
  intros H. destruct s as [|c s]; simpl; [exact H|].
  destruct (isspace c); [apply orb_true_iff; right|]; exact H.
Qed.

Lemma ws_star_sound s :
  ws_star s = true ->
  exists w rest, s = w ++ rest /\ blank w /\ (rest = [] \/ phrase_at rest).
Proof.
  induction s as [|c s IH]; intros H.
  - apply alternative_sound. exact H.
  - simpl in H. destruct (isspace c) eqn:Hc.
    + apply orb_true_iff in H as [H|H].
      * destruct (IH H) as (w & rest & -> & Hw & Hr).
        exists (c :: w), rest. repeat split; [|exact Hr].
        constructor; assumption.
      * apply alternative_sound. exact H.
    + apply alternative_sound. exact H.
Qed.

Lemma ws_star_complete w : blank w ->
  forall rest, rest = [] \/ phrase_at rest -> ws_star (w ++ rest) = true.
Proof.
  induction 1 as [|c w Hc _ IH]; intros rest Hr.
  - apply alternative_ws_star. unfold alternative.
    destruct Hr as [-> | Hr]; [reflexivity|].
    apply orb_true_iff. left. apply starts_ci_spec. exact Hr.
  - simpl. rewrite Hc, (IH _ Hr). reflexivity.
Qed.

Lemma lookahead_spec s : lookahead s = true <-> terminator s.
Proof.
  unfold lookahead, terminator. split.
  - destruct s as [|c s]; [discriminate|]. intros H.
    apply andb_true_iff in H as [Hc H]. apply N.eqb_eq in Hc. subst c.
    destruct (ws_star_sound _ H) as (w & rest & -> & Hw & Hr).
    exists w, rest. repeat split; assumption.
  - intros (w & rest & -> & Hw & Hr).
    rewrite N.eqb_refl. simpl. apply ws_star_complete; assumption.
Qed.

Lemma lookahead_false s : lookahead s = false -> ~ terminator s.
Proof.
  intros H Ht. apply lookahead_spec in Ht. congruence.
Qed.

Lemma lazy_dot_eq s :
  lazy_dot s =
  if lookahead s then Some []
  else match s with
       | [] => None
       | c :: s' => option_map (cons c) (lazy_dot s')
       end.
Proof.
  destruct s; reflexivity.
Qed.

Lemma lazy_dot_sound s : forall g,
  lazy_dot s = Some g ->
  exists post,
    s = g ++ post /\ terminator post /\
    forall b1 b2, g = b1 ++ b2 -> b2 <> [] -> ~ terminator (b2 ++ post).
Proof.
  induction s as [|c s IH]; intros g H; rewrite lazy_dot_eq in H.
  - discriminate.
  - destruct (lookahead (c :: s)) eqn:Hl.
    + injection H as <-. exists (c :: s). split; [reflexivity|].
      split; [apply lookahead_spec; exact Hl|].
      intros b1 b2 E Hb. destruct b1; destruct b2; try discriminate.
      congruence.
    + destruct (lazy_dot s) as [g'|] eqn:Hg; [|discriminate].
      simpl in H. injection H as <-.
      destruct (IH _ eq_refl) as (post & -> & Ht & Hmin).
      exists post. split; [reflexivity|]. split; [exact Ht|].
      intros [|x b1] b2 E Hb; simpl in E.
      * subst b2. apply lookahead_false. exact Hl.
      * injection E as _ E. eapply Hmin; eassumption.
Qed.

Lemma lazy_dot_complete g : forall post,
  terminator post ->
  (forall b1 b2, g = b1 ++ b2 -> b2 <> [] -> ~ terminator (b2 ++ post)) ->
  lazy_dot (g ++ post) = Some g.
Proof.
  induction g as [|c g IH]; intros post Ht Hmin; rewrite lazy_dot_eq.
  - apply lookahead_spec in Ht. simpl app. rewrite Ht. reflexivity.
  - assert (Hl : lookahead ((c :: g) ++ post) = false).
    { destruct (lookahead ((c :: g) ++ post)) eqn:Hl; [|reflexivity].
      apply lookahead_spec in Hl.
      exfalso. apply (Hmin [] (c :: g) eq_refl); [discriminate | exact Hl]. }
    rewrite Hl. simpl. rewrite IH; [reflexivity | exact Ht |].
    intros b1 b2 E. apply (Hmin (c :: b1) b2). simpl. congruence.
Qed.

Lemma lazy_dot_none s :
  lazy_dot s = None -> forall a b, s = a ++ b -> ~ terminator b.
Proof.
  induction s as [|c s IH]; intros H a b E; rewrite lazy_dot_eq in H.
  - destruct a; [|discriminate]. destruct b; [|discriminate].
    intros Ht. apply lookahead_spec in Ht. discriminate.
  - destruct (lookahead (c :: s)) eqn:Hl; [discriminate|].
    destruct (lazy_dot s) eqn:Hg; [discriminate|].
    destruct a as [|x a]; simpl in E.
    + subst b. apply lookahead_false. exact Hl.
    + injection E as _ E. eapply IH; [reflexivity | exact E].
Qed.

Lemma firstn_word kw rest :
  ci_word SELECT kw -> firstn (List.length SELECT) (kw ++ rest) = kw.
Proof.
  intros Hkw.
  rewrite <- (ci_word_length _ _ Hkw), firstn_app, Nat.sub_diag, firstn_all.
  simpl. apply app_nil_r.
Qed.

Lemma match_at_sound s g :
  match_at s = Some g ->
  exists kw body post,
    s = kw ++ body ++ post /\ g = kw ++ body /\ ci_word SELECT kw /\
    terminator post /\
    forall b1 b2, body = b1 ++ b2 -> b2 <> [] -> ~ terminator (b2 ++ post).
Proof.
  unfold match_at. intros H.
  destruct (match_lit SELECT s) as [rest|] eqn:Hk; [|discriminate].
  destruct (match_lit_sound _ _ _ Hk) as (kw & -> & Hkw).
  rewrite (firstn_word _ _ Hkw) in H.
  destruct (lazy_dot rest) as [body|] eqn:Hb; [|discriminate].
  injection H as <-.
  destruct (lazy_dot_sound _ _ Hb) as (post & -> & Ht & Hmin).
  exists kw, body, post. repeat split; assumption.
Qed.

Lemma match_at_complete kw body post :
  ci_word SELECT kw -> terminator post ->
  (forall b1 b2, body = b1 ++ b2 -> b2 <> [] -> ~ terminator (b2 ++ post)) ->
  match_at (kw ++ body ++ post) = Some (kw ++ body).
Proof.
  intros Hkw Ht Hmin. unfold match_at.
  rewrite (match_lit_complete _ _ Hkw), (lazy_dot_complete _ _ Ht Hmin).
  rewrite (firstn_word _ _ Hkw). reflexivity.
Qed.

Lemma search_eq s :
  search s =
  match match_at s with
  | Some g => Some g
  | None => match s with
            | [] => None
            | _ :: s' => search s'
            end
  end.
Proof.
  destruct s; reflexivity.
Qed.

Lemma search_sound s : forall g,
  search s = Some g ->
  exists pre tl,
    s = pre ++ tl /\ match_at tl = Some g /\
    forall p1 p2, pre = p1 ++ p2 -> p2 <> [] -> match_at (p2 ++ tl) = None.
Proof.
  induction s as [|c s IH]; intros g H; rewrite search_eq in H.
  - destruct (match_at []) eqn:Hm; discriminate.
  - destruct (match_at (c :: s)) as [g'|] eqn:Hm.
    + injection H as ->. exists [], (c :: s). repeat split; [exact Hm|].
      intros p1 p2 E Hp. destruct p1; destruct p2; try discriminate.
      congruence.
    + destruct (IH _ H) as (pre & tl & -> & Ht & Hleft).
      exists (c :: pre), tl. repeat split; [exact Ht|].
      intros [|x p1] p2 E Hp; simpl in E.
      * subst p2. exact Hm.
      * injection E as _ E. eapply Hleft; eassumption.
Qed.

Lemma search_complete pre : forall tl g,
  match_at tl = Some g ->
  (forall p1 p2, pre = p1 ++ p2 -> p2 <> [] -> match_at (p2 ++ tl) = None) ->
  search (pre ++ tl) = Some g.
Proof.
  induction pre as [|c pre IH]; intros tl g Hm Hleft; rewrite search_eq.
  - simpl app. rewrite Hm. reflexivity.
  - rewrite (Hleft [] (c :: pre) eq_refl); [|discriminate].
    simpl app. apply IH; [exact Hm|].
    intros p1 p2 E. apply (Hleft (c :: p1) p2). simpl. congruence.
Qed.

Lemma search_none s :
  search s = None -> forall a b, s = a ++ b -> match_at b = None.
Proof.
  induction s as [|c s IH]; intros H a b E; rewrite search_eq in H.
  - destruct a; [|discriminate]. destruct b; [|discriminate].
    destruct (match_at []); [discriminate | reflexivity].
  - destruct (match_at (c :: s)) eqn:Hm; [discriminate|].
    destruct a as [|x a]; simpl in E.
    + subst b. exact Hm.
    + injection E as _ E. eapply IH; eassumption.
Qed.

(** A token SELECT that cannot be completed to a match has no terminator
    anywhere after it. *)
Lemma match_at_none kw rest :
  ci_word SELECT kw -> match_at (kw ++ rest) = None ->
  forall a b, rest = a ++ b -> ~ terminator b.
Proof.
  unfold match_at. intros Hkw H.
  rewrite (match_lit_complete _ _ Hkw) in H.
  destruct (lazy_dot rest) eqn:Hl; [discriminate|].
  apply lazy_dot_none. exact Hl.
Qed.

Lemma match_at_none_no_select s : ~ select_at s -> match_at s = None.
Proof.
  intros H. unfold match_at.
  destruct (match_lit SELECT s) as [rest|] eqn:Hk; [|reflexivity].
  exfalso. apply H. destruct (match_lit_sound _ _ _ Hk) as (kw & -> & Hkw).
  exists kw, rest. split; [reflexivity | assumption].
Qed.

Lemma terminated_select_search s :
  terminated_select s -> search s <> None.
Proof.
  intros (pre & kw & body & post & -> & Hkw & Ht) H.
  pose proof (search_none _ H pre _ eq_refl) as Hm.
  exact (match_at_none _ _ Hkw Hm body post eq_refl Ht).
Qed.

Lemma search_spec s g : search s = Some g <-> sql_span s g.
Proof.
  split.
  - intros H. destruct (search_sound _ _ H) as (pre & tl & -> & Hm & Hleft).
    destruct (match_at_sound _ _ Hm)
      as (kw & body & post & -> & -> & Hkw & Ht & Hmin).
    exists pre, kw, body, post. repeat split; try assumption.
    intros p1 p2 E Hp (kw' & rest & E' & Hkw').
    pose proof (Hleft p1 p2 E Hp) as Hn. rewrite E' in Hn.
    assert (Hlen : List.length kw' = List.length kw)
      by (rewrite (ci_word_length _ _ Hkw), (ci_word_length _ _ Hkw');
          reflexivity).
    assert (Hsuf : exists a, rest = a ++ post).
    { rewrite 2 app_assoc in E'. symmetry in E'.
      apply app_eq_app in E' as [l [[E1 E2] | [E1 E2]]].
      - apply (f_equal (@List.length N)) in E1.
        rewrite !length_app in E1. destruct p2; [congruence|].
        simpl in E1. lia.
      - exists l. exact E2. }
    destruct Hsuf as (a & Ea).
    exact (match_at_none _ _ Hkw' Hn a post Ea Ht).
  - intros (pre & kw & body & post & -> & -> & Hkw & Hleft & Ht & Hmin).
    apply search_complete.
    + apply match_at_complete; assumption.
    + intros p1 p2 E Hp. apply match_at_none_no_select.
      eapply Hleft; eassumption.
Qed.

End Extractor.

Lemma ci_S_not_space c : Re.ci_match 83 c = true -> isspace c = false.
Proof.
  unfold Re.ci_match. cbn. intros H.
  repeat (apply orb_true_iff in H as [H|H]); try discriminate;
    apply N.eqb_eq in H; subst c; reflexivity.
Qed.

Lemma lstrip_keeps a : forall c,
  isspace c = false -> lstrip (a ++ [c]) <> [].
Proof.
  induction a as [|x a IH]; intros c Hc; simpl.
  - rewrite Hc. discriminate.
  - destruct (isspace x); [apply IH; exact Hc | discriminate].
Qed.

Lemma strip_keeps c s : isspace c = false -> strip (c :: s) <> [].
Proof.
  intros Hc. unfold strip. simpl. rewrite Hc. simpl.
  intros H. apply (f_equal (@rev N)) in H. rewrite rev_involutive in H.
  simpl in H. exact (lstrip_keeps _ _ Hc H).
Qed.

Lemma sql_span_strip s span : sql_span s span -> strip span <> [].
Proof.
  intros (pre & kw & body & post & _ & -> & Hkw & _).
  inversion Hkw as [|a c p w Hc Hrest]; subst.
  apply strip_keeps. apply ci_S_not_space. exact Hc.
Qed.

(** The query the extractor returns is never the empty text. *)
Lemma extract_sql_text_nonempty text q :
  extract_sql_text text = Some q -> q <> [].
Proof.
  unfold extract_sql_text.
  destruct (Re.search text) as [g|] eqn:Hs; [|discriminate].
  intros H. injection H as <-.
  apply (sql_span_strip text). apply search_spec. exact Hs.
Qed.

(** C5, amended.  The extractor returns the whitespace-trimmed span from
    the first case-insensitive token SELECT up to, and without, the first
    line break after it that is followed by optional whitespace and then
    by the phrase [Returned information] or by the end of the text; it
    returns [None] exactly when no token SELECT is followed by such a line
    break. *)
Theorem extract_sql_query_span (s : pystr) :
  (forall r,
     extract_sql_query (VStr s) = Ok (Some r) <->
     exists span, sql_span s span /\ r = strip span) /\
  (extract_sql_query (VStr s) = Ok None <-> ~ terminated_select s).
Proof.
  unfold extract_sql_query, extract_sql_text. split.
  - intros r. split.
    + destruct (Re.search s) as [g|] eqn:Hs; [|discriminate].
      intros H. injection H as <-. exists g.
      split; [apply search_spec; exact Hs | reflexivity].
    + intros (span & Hspan & ->). apply search_spec in Hspan.
      rewrite Hspan. reflexivity.
  - split.
    + destruct (Re.search s) as [g|] eqn:Hs; [discriminate|].
      intros _ Ht. exact (terminated_select_search s Ht Hs).
    + intros Hn. destruct (Re.search s) as [g|] eqn:Hs; [|reflexivity].
      exfalso. apply Hn. apply search_spec in Hs.
      destruct Hs as (pre & kw & body & post & -> & _ & Hkw & _ & Ht & _).
      exists pre, kw, body, post. repeat split; assumption.
Qed.

(** C5 as stated fails: a text that holds SELECT but no line break after
    it gives [None]. *)
Lemma select_without_line_break :
  extract_sql_query (VStr (lit "SELECT 1")) = Ok None /\
  select_occurs (lit "SELECT 1").
Proof.
  split; [reflexivity|].
  exists [], (lit "SELECT 1"). split; [reflexivity|].
  exists (lit "SELECT"), (lit " 1"). split; [reflexivity|].
  repeat constructor.
Qed.

(** ** The trace interpreter *)

Arguments lit : simpl never.

Ltac break_match H :=
  match type of H with
  | context [match ?x with _ => _ end] => destruct x eqn:?
  end.

Ltac break_all H :=
  repeat (first [discriminate H
                | progress (cbn [bind fst snd] in H)
                | break_match H]).

Lemma bind_ok {A B} (m : result A) (f : A -> result B) b :
  bind m f = Ok b -> exists a, m = Ok a /\ f a = Ok b.
Proof.
  destruct m as [a|e]; simpl; [|discriminate].
  intros H. exists a. split; [reflexivity | exact H].
Qed.

Lemma for_each_app {S A} (f : S -> A -> result S) (a b : list A) :
  forall st, for_each f (a ++ b) st = bind (for_each f a st) (for_each f b).
Proof.
  induction a as [|x a IH]; intros st; simpl.
  - reflexivity.
  - destruct (f st x); simpl; [apply IH | reflexivity].
Qed.

Lemma getitem_field v k x : getitem v (lit k) = Ok x <-> field v k = Some x.
Proof.
  unfold getitem, field.
  destruct v; try (split; discriminate).
  destruct (lookup (lit k) d); split; congruence.
Qed.

Lemma field_getitem v k x : field v k = Some x -> getitem v (lit k) = Ok x.
Proof.
  apply getitem_field.
Qed.

Lemma field_dict v k x : field v k = Some x -> exists d, v = VDict d.
Proof.
  destruct v; try discriminate. intros _. exists d. reflexivity.
Qed.

Lemma key_in_lookup k d :
  key_in k (map fst d)
  = match lookup k d with Some _ => true | None => false end.
Proof.
  unfold key_in. induction d as [|[k' v] d IH]; simpl.
  - reflexivity.
  - destruct (str_eqb k k'); [reflexivity | exact IH].
Qed.

Lemma event_step_inv tl ct e tl' ct' :
  event_step (tl, ct) e = Ok (tl', ct') ->
  tl' = tl ++ collected_traces [e] /\
  match field e "chunk" with
  | None => ct' = ct
  | Some chunk =>
      exists b text,
        field chunk "bytes" = Some (VBytes b) /\
        utf8_decode b = Some text /\ ct' = Some text
  end.
Proof.
  unfold event_step, collected_traces. intros H.
  destruct e; try discriminate H.
  cbn [keys bind contains getitem field flat_map] in *.
  unfold has_key in H.
  destruct (lookup (lit "trace") d) as [t|];
    destruct (lookup (lit "chunk") d) as [chunk|];
    cbn [bind] in H.
  all: try (injection H as <- <-; rewrite ?app_nil_r; split; reflexivity).
  all: destruct (getitem chunk (lit "bytes")) as [bs|] eqn:Hb;
    [|discriminate H]; cbn [bind] in H;
    apply getitem_field in Hb;
    destruct bs; try discriminate H; cbn [decode] in H;
    destruct (utf8_decode b) as [text|] eqn:Hu; [|discriminate H];
    cbn [bind] in H; injection H as <- <-;
    (split; [rewrite ?app_nil_r; reflexivity |]);
    exists b, text; repeat split; assumption.
Qed.

Lemma collected_traces_cons e events :
  collected_traces (e :: events)
  = collected_traces [e] ++ collected_traces events.
Proof.
  unfold collected_traces. simpl. rewrite app_nil_r. reflexivity.
Qed.

Lemma collected_traces_app a b :
  collected_traces (a ++ b) = collected_traces a ++ collected_traces b.
Proof.
  apply flat_map_app.
Qed.

Lemma event_loop events : forall tl ct tl' ct',
  for_each event_step events (tl, ct) = Ok (tl', ct') ->
  tl' = tl ++ collected_traces events.
Proof.
  induction events as [|e events IH]; intros tl ct tl' ct' H;
    cbn [for_each] in H.
  - injection H as <- <-. symmetry. apply app_nil_r.
  - apply bind_ok in H as ([tl1 ct1] & Hs & Hr).
    apply event_step_inv in Hs as [-> _]. apply IH in Hr. subst tl'.
    rewrite (collected_traces_cons e events), app_assoc. reflexivity.
Qed.

Lemma event_loop_no_chunk events : forall tl ct tl' ct',
  for_each event_step events (tl, ct) = Ok (tl', ct') ->
  Forall (fun e => field e "chunk" = None) events ->
  ct' = ct.
Proof.
  induction events as [|e events IH]; intros tl ct tl' ct' H Hn;
    cbn [for_each] in H.
  - injection H as <- <-. reflexivity.
  - apply bind_ok in H as ([tl1 ct1] & Hs & Hr).
    inversion Hn as [|x l He Hl]; subst.
    apply event_step_inv in Hs as [_ Hs]. rewrite He in Hs. subst ct1.
    eapply IH; eassumption.
Qed.

Lemma event_loop_last_chunk before e after chunk tl ct tl' ct' :
  for_each event_step (before ++ e :: after) (tl, ct) = Ok (tl', ct') ->
  field e "chunk" = Some chunk ->
  Forall (fun e' => field e' "chunk" = None) after ->
  exists b text,
    field chunk "bytes" = Some (VBytes b) /\
    utf8_decode b = Some text /\ ct' = Some text.
Proof.
  intros H He Hn. rewrite for_each_app in H.
  apply bind_ok in H as ([tl0 ct0] & _ & H). cbn [for_each] in H.
  apply bind_ok in H as ([tl1 ct1] & Hs & Hr).
  apply event_step_inv in Hs as [_ Hs]. rewrite He in Hs.
  destruct Hs as (b & text & Hb & Hu & ->).
  apply (event_loop_no_chunk _ _ _ _ _ Hr) in Hn. subst ct'.
  exists b, text. repeat split; assumption.
Qed.

Lemma str_eqb_eq a b : str_eqb a b = true <-> a = b.
Proof.
  unfold str_eqb. destruct (list_eq_dec N.eq_dec a b); split;
    congruence.
Qed.

Lemma eq_str_true v k : eq_str v k = true <-> v = VStr k.
Proof.
  destruct v; simpl; try (split; [discriminate | congruence]).
  rewrite str_eqb_eq. split; congruence.
Qed.

Lemma keys_ok v ks : keys v = Ok ks -> exists d, v = VDict d /\ ks = map fst d.
Proof.
  destruct v; try discriminate. simpl. intros H. injection H as <-.
  exists d. split; reflexivity.
Qed.

(** What one turn of the query loop does, and what the knowledge-base scan
    does on the same trace, once the query loop has accepted the trace. *)
Lemma query_step_inv q0 t q :
  query_step q0 t = Ok q ->
  match observation t with
  | None => q = q0 /\ kb_step t = Ok None
  | Some obs =>
      kb_step t = kb_branch obs /\
      exists ty,
        field obs "type" = Some ty /\
        if eq_str ty (lit "ACTION_GROUP")
        then exists out text,
               field obs "actionGroupInvocationOutput" = Some out /\
               field out "text" = Some (VStr text) /\
               q = extract_sql_text text
        else q = q0
  end.
Proof.
  unfold query_step, kb_step, observation. intros H.
  apply bind_ok in H as (tr & Htr & H). rewrite Htr.
  apply getitem_field in Htr. rewrite Htr. cbn [bind].
  apply bind_ok in H as (ks & Hks & H).
  apply keys_ok in Hks as (dtr & -> & ->).
  cbn [keys bind field getitem] in *. rewrite key_in_lookup in *.
  destruct (lookup (lit "orchestrationTrace") dtr) as [ot|];
    [|injection H as <-; split; reflexivity].
  cbn [bind] in *.
  apply bind_ok in H as (ks & Hks & H).
  apply keys_ok in Hks as (dot & -> & ->).
  cbn [keys bind field getitem] in *. rewrite key_in_lookup in *.
  destruct (lookup (lit "observation") dot) as [obs|];
    [|injection H as <-; split; reflexivity].
  cbn [bind] in *.
  apply bind_ok in H as (ty & Hty & H).
  pose proof Hty as Hty'. apply getitem_field in Hty'.
  destruct (field_dict _ _ _ Hty') as (dobs & ->).
  split.
  - unfold kb_branch. cbn [contains field bind getitem]. unfold has_key.
    destruct (lookup (lit "knowledgeBaseLookupOutput") dobs) as [kb|];
      reflexivity.
  - exists ty. split; [exact Hty'|].
    destruct (eq_str ty (lit "ACTION_GROUP")).
    + apply bind_ok in H as (out & Hout & H).
      apply bind_ok in H as (text & Htext & H).
      apply getitem_field in Hout, Htext.
      destruct text; try discriminate H. cbn [extract_sql_query] in H.
      injection H as <-. exists out, s. repeat split; assumption.
    + injection H as <-. reflexivity.
Qed.

Lemma query_loop_none traces : forall q,
  for_each query_step traces None = Ok q ->
  (forall t r, In t traces -> ~ yields_query t r) ->
  q = None.
Proof.
  induction traces as [|t traces IH]; intros q H Hn; cbn [for_each] in H.
  - congruence.
  - apply bind_ok in H as (q1 & Hs & Hr).
    assert (q1 = None) as ->.
    { apply query_step_inv in Hs.
      destruct (observation t) as [obs|] eqn:Ho; [|apply Hs].
      destruct Hs as (_ & ty & Hty & Hs).
      destruct (eq_str ty (lit "ACTION_GROUP")) eqn:Hag; [|exact Hs].
      apply eq_str_true in Hag. subst ty.
      destruct Hs as (out & text & Hout & Htext & ->).
      destruct (extract_sql_text text) as [r|] eqn:He; [|reflexivity].
      exfalso. apply (Hn t r); [left; reflexivity|].
      exists obs, out, text. repeat split; assumption. }
    apply IH; [exact Hr|].
    intros t' r Hin. apply Hn. right. exact Hin.
Qed.

Lemma query_loop_unchanged traces : forall q0 q,
  for_each query_step traces q0 = Ok q ->
  (forall t, In t traces -> ~ is_action_group t) ->
  q = q0.
Proof.
  induction traces as [|t traces IH]; intros q0 q H Hn;
    cbn [for_each] in H.
  - congruence.
  - apply bind_ok in H as (q1 & Hs & Hr).
    assert (q1 = q0) as ->.
    { apply query_step_inv in Hs.
      destruct (observation t) as [obs|] eqn:Ho; [|apply Hs].
      destruct Hs as (_ & ty & Hty & Hs).
      destruct (eq_str ty (lit "ACTION_GROUP")) eqn:Hag; [|exact Hs].
      apply eq_str_true in Hag. subst ty.
      exfalso. apply (Hn t); [left; reflexivity|].
      exists obs. split; assumption. }
    apply IH; [exact Hr|].
    intros t' Hin. apply Hn. right. exact Hin.
Qed.

Lemma query_loop_last pre t post q0 q r :
  for_each query_step (pre ++ t :: post) q0 = Ok q ->
  yields_query t r ->
  (forall t', In t' post -> ~ is_action_group t') ->
  q = Some r.
Proof.
  intros H (obs & out & text & Ho & Hty & Hout & Htext & He) Hn.
  rewrite for_each_app in H. apply bind_ok in H as (q1 & _ & H).
  cbn [for_each] in H. apply bind_ok in H as (q2 & Hs & Hr).
  apply query_step_inv in Hs. rewrite Ho in Hs.
  destruct Hs as (_ & ty & Hty' & Hs).
  rewrite Hty in Hty'. injection Hty' as <-.
  assert (Hag : eq_str (VStr (lit "ACTION_GROUP")) (lit "ACTION_GROUP") = true)
    by (apply eq_str_true; reflexivity).
  rewrite Hag in Hs. destruct Hs as (out' & text' & Hout' & Htext' & ->).
  rewrite Hout in Hout'. injection Hout' as <-.
  rewrite Htext in Htext'. injection Htext' as <-.
  rewrite He in Hr.
  exact (query_loop_unchanged _ _ _ Hr Hn).
Qed.

Lemma query_loop_accepted traces : forall q0 q,
  for_each query_step traces q0 = Ok q -> Forall accepted traces.
Proof.
  induction traces as [|t traces IH]; intros q0 q H; cbn [for_each] in H.
  - constructor.
  - apply bind_ok in H as (q1 & Hs & Hr). constructor.
    + exists q0, q1. exact Hs.
    + eapply IH. exact Hr.
Qed.

Lemma kb_step_skip t :
  accepted t -> ~ has_kb_lookup t -> kb_step t = Ok None.
Proof.
  intros (q0 & q & Hs) Hn. apply query_step_inv in Hs.
  destruct (observation t) as [obs|] eqn:Ho; [|apply Hs].
  destruct Hs as (-> & _). unfold kb_branch.
  destruct (field obs "knowledgeBaseLookupOutput") as [kb|] eqn:Hkb;
    [|reflexivity].
  exfalso. apply Hn. exists obs, kb. split; assumption.
Qed.

Lemma kb_scan_none traces :
  Forall accepted traces ->
  (forall t, In t traces -> ~ has_kb_lookup t) ->
  extract_source_list_from_kb traces = Ok VNone.
Proof.
  induction 1 as [|t traces Ht _ IH]; intros Hn;
    cbn [extract_source_list_from_kb].
  - reflexivity.
  - rewrite (kb_step_skip t Ht); [|apply Hn; left; reflexivity].
    cbn [bind]. apply IH. intros t' Hin. apply Hn. right. exact Hin.
Qed.

Lemma uri_loop refs uris :
  Forall2 uri_of refs uris ->
  forall acc, for_each uri_step refs acc = Ok (acc ++ uris).
Proof.
  induction 1 as [|r u refs uris (loc & s3 & Hl & Hs & Hu) _ IH];
    intros acc; cbn [for_each].
  - rewrite app_nil_r. reflexivity.
  - unfold uri_step at 1.
    rewrite (field_getitem _ _ _ Hl). cbn [bind].
    rewrite (field_getitem _ _ _ Hs). cbn [bind].
    rewrite (field_getitem _ _ _ Hu). cbn [bind].
    rewrite IH, <- app_assoc. reflexivity.
Qed.

Lemma kb_step_uris t uris : kb_uris t uris -> kb_step t = Ok (Some uris).
Proof.
  intros (obs & kb & refs & Ho & Hkb & Hrefs & Hu).
  unfold observation in Ho.
  destruct (field t "trace") as [tr|] eqn:Htr; [|discriminate].
  destruct (field tr "orchestrationTrace") as [ot|] eqn:Hot;
    [|discriminate].
  destruct (field_dict _ _ _ Hot) as (dtr & ->).
  destruct (field_dict _ _ _ Ho) as (dot & ->).
  destruct (field_dict _ _ _ Hkb) as (dobs & ->).
  unfold kb_step. rewrite (field_getitem _ _ _ Htr).
  cbn [bind keys getitem field contains] in *.
  rewrite key_in_lookup, Hot. cbn [bind keys getitem].
  rewrite key_in_lookup, Ho. cbn [bind keys getitem contains].
  unfold has_key. rewrite Hkb. cbn [bind].
  rewrite (field_getitem _ _ _ Hrefs). cbn [bind iter].
  rewrite (uri_loop _ _ Hu). reflexivity.
Qed.

Lemma kb_scan_first pre : forall t post uris,
  Forall accepted pre ->
  (forall t', In t' pre -> ~ has_kb_lookup t') ->
  kb_uris t uris ->
  extract_source_list_from_kb (pre ++ t :: post) = Ok (VList uris).
Proof.
  induction pre as [|p pre IH]; intros t post uris Ha Hn Hk;
    cbn [app extract_source_list_from_kb].
  - rewrite (kb_step_uris _ _ Hk). reflexivity.
  - inversion Ha as [|x l Hp Hpre]; subst.
    rewrite (kb_step_skip p Hp); [|apply Hn; left; reflexivity].
    cbn [bind]. apply IH; [exact Hpre | | exact Hk].
    intros t' Hin. apply Hn. right. exact Hin.
Qed.

Lemma event_step_total tl ct e :
  well_formed_event e -> exists st, event_step (tl, ct) e = Ok st.
Proof.
  intros (d & -> & Hc). unfold event_step.
  cbn [keys bind contains getitem]. unfold has_key.
  destruct (lookup (lit "trace") d) as [t|]; cbn [bind];
    (destruct (lookup (lit "chunk") d) as [chunk|]; cbn [bind];
     [|eexists; reflexivity]);
    destruct (Hc chunk eq_refl) as (b & text & Hb & Hu);
    rewrite (field_getitem _ _ _ Hb); cbn [bind decode]; rewrite Hu;
    eexists; reflexivity.
Qed.

Lemma event_loop_total events :
  Forall well_formed_event events ->
  forall st, exists st', for_each event_step events st = Ok st'.
Proof.
  induction 1 as [|e events He _ IH]; intros [tl ct]; cbn [for_each].
  - eexists. reflexivity.
  - destruct (event_step_total tl ct e He) as (st1 & ->). cbn [bind].
    apply IH.
Qed.

(** Whether [query_step] raises does not depend on the query found so
    far. *)
Lemma query_step_any_state t q0 :
  accepted t -> exists q, query_step q0 t = Ok q.
Proof.
  intros (q1 & q & H). unfold query_step in *.
  repeat match type of H with
         | bind ?m _ = _ =>
             destruct m eqn:?; cbn [bind] in *; [|discriminate H]
         | (if ?b then _ else _) = _ => destruct b eqn:?
         end;
    eexists; first [exact H | reflexivity].
Qed.

Lemma query_loop_total traces :
  Forall accepted traces ->
  forall q0, exists q, for_each query_step traces q0 = Ok q.
Proof.
  induction 1 as [|t traces Ht _ IH]; intros q0; cbn [for_each].
  - eexists. reflexivity.
  - destruct (query_step_any_state t q0 Ht) as (q1 & ->). cbn [bind].
    apply IH.
Qed.

Section Interpreter.

Variable svc : Services.

Lemma get_agent_response_eq response events :
  completion_of response events ->
  get_agent_response svc response =
  (st <- for_each event_step events ([], None) ;;
   q <- for_each query_step (fst st) None ;;
   src <- match q with
          | Some (c :: r) => Ok (VStr (c :: r))
          | Some [] | None =>
              try_except (extract_source_list_from_kb (fst st))
                         Exception (Ok (VStr []))
          end ;;
   match snd st with
   | Some text => Ok (Answer text src)
   | None => Raise UnboundLocalError
   end).
Proof.
  intros H. unfold completion_of in H.
  destruct (field_dict _ _ _ H) as (d & ->).
  unfold get_agent_response. cbn [contains field getitem] in *.
  unfold has_key. rewrite H. cbn [negb bind iter].
  destruct (for_each event_step events ([], None)) as [[tl ct]|];
    reflexivity.
Qed.

Lemma get_agent_response_answer response events text src :
  completion_of response events ->
  get_agent_response svc response = Ok (Answer text src) ->
  exists q,
    for_each event_step events ([], None)
      = Ok (collected_traces events, Some text) /\
    for_each query_step (collected_traces events) None = Ok q /\
    match q with
    | Some (c :: r) => src = VStr (c :: r)
    | Some [] | None =>
        try_except (extract_source_list_from_kb (collected_traces events))
                   Exception (Ok (VStr [])) = Ok src
    end.
Proof.
  intros Hc H. rewrite (get_agent_response_eq _ _ Hc) in H.
  apply bind_ok in H as ([tl ct] & He & H). cbn [fst snd] in H.
  apply bind_ok in H as (q & Hq & H).
  apply bind_ok in H as (src' & Hs & H).
  destruct ct as [text'|]; [|discriminate H].
  injection H as <- <-.
  pose proof (event_loop _ _ _ _ _ He) as Htl. cbn [app] in Htl. subst tl.
  exists q. repeat split; try assumption.
  destruct q as [[|c r]|]; try exact Hs. congruence.
Qed.

(** C7.  When the stream holds a chunk event, the answer text that
    [get_agent_response] returns is the UTF-8 decoding of the bytes of the
    last chunk event, wherever trace events stand between the chunks; and
    it does return on a stream whose events and traces are free of
    errors. *)
Theorem answer_is_last_chunk response before e after chunk :
  completion_of response (before ++ e :: after) ->
  field e "chunk" = Some chunk ->
  Forall (fun e' => field e' "chunk" = None) after ->
  (forall text src,
     get_agent_response svc response = Ok (Answer text src) ->
     exists b,
       field chunk "bytes" = Some (VBytes b) /\
       utf8_decode b = Some text) /\
  (Forall well_formed_event (before ++ e :: after) ->
   Forall accepted (collected_traces (before ++ e :: after)) ->
   exists b text src,
     field chunk "bytes" = Some (VBytes b) /\
     utf8_decode b = Some text /\
     get_agent_response svc response = Ok (Answer text src)).
Proof.
  intros Hc He Hn. split.
  - intros text src H.
    destruct (get_agent_response_answer _ _ _ _ Hc H) as (q & Hev & _).
    destruct (event_loop_last_chunk _ _ _ _ _ _ _ _ Hev He Hn)
      as (b & text' & Hb & Hu & [= ->]).
    exists b. split; assumption.
  - intros Hwf Hacc.
    destruct (event_loop_total _ Hwf ([], None)) as ([tl ct] & Hev).
    pose proof (event_loop _ _ _ _ _ Hev) as Htl. cbn [app] in Htl.
    destruct (event_loop_last_chunk _ _ _ _ _ _ _ _ Hev He Hn)
      as (b0 & text & Hb0 & Hu0 & Hct).
    subst ct tl.
    destruct (query_loop_total _ Hacc None) as (q & Hq).
    rewrite (get_agent_response_eq _ _ Hc), Hev. cbn [bind fst snd].
    rewrite Hq. cbn [bind].
    exists b0, text.
    destruct q as [[|c r]|]; cbn [bind];
      try (eexists; repeat split; [exact Hb0 | exact Hu0 | reflexivity]);
      destruct (extract_source_list_from_kb
                  (collected_traces (before ++ e :: after)));
      eexists; repeat split; try eassumption; reflexivity.
Qed.

Lemma unbound_chunk_text response events st q :
  completion_of response events ->
  Forall (fun e => field e "chunk" = None) events ->
  for_each event_step events ([], None) = Ok st ->
  for_each query_step (fst st) None = Ok q ->
  get_agent_response svc response = Raise UnboundLocalError.
Proof.
  intros Hc Hn He Hq. rewrite (get_agent_response_eq _ _ Hc), He.
  cbn [bind]. rewrite Hq. cbn [bind].
  destruct st as [tl ct]. cbn [fst snd].
  rewrite (event_loop_no_chunk _ _ _ _ _ He Hn).
  destruct q as [[|c r]|]; cbn [bind]; try reflexivity;
    destruct (extract_source_list_from_kb tl); reflexivity.
Qed.

(** C10.  On a stream without a chunk event [get_agent_response] does not
    return: it ends in an error, which is the unbound [chunk_text] of its
    [return] statement whenever the two loops before it went through. *)
Theorem no_chunk_no_answer response events :
  completion_of response events ->
  Forall (fun e => field e "chunk" = None) events ->
  (exists x, get_agent_response svc response = Raise x) /\
  (forall st q,
     for_each event_step events ([], None) = Ok st ->
     for_each query_step (fst st) None = Ok q ->
     get_agent_response svc response = Raise UnboundLocalError).
Proof.
  intros Hc Hn. split.
  - destruct (for_each event_step events ([], None)) as [st|x] eqn:He.
    + destruct (for_each query_step (fst st) None) as [q|x] eqn:Hq.
      * exists UnboundLocalError.
        eapply unbound_chunk_text; eassumption.
      * exists x. rewrite (get_agent_response_eq _ _ Hc), He.
        cbn [bind]. rewrite Hq. reflexivity.
    + exists x. rewrite (get_agent_response_eq _ _ Hc), He. reflexivity.
  - intros st q He Hq. eapply unbound_chunk_text; eassumption.
Qed.

(** C1, amended.  When the last collected trace that holds an
    ACTION_GROUP observation yields a query, that query is the provenance
    [get_agent_response] returns, whatever knowledge-base references the
    traces hold. *)
Theorem last_action_group_query_wins
    response events pre t post q text src :
  completion_of response events ->
  collected_traces events = pre ++ t :: post ->
  yields_query t q ->
  (forall t', In t' post -> ~ is_action_group t') ->
  get_agent_response svc response = Ok (Answer text src) ->
  src = VStr q.
Proof.
  intros Hc Ht Hy Hn H.
  destruct (get_agent_response_answer _ _ _ _ Hc H) as (q' & _ & Hq & Hs).
  rewrite Ht in Hq.
  rewrite (query_loop_last _ _ _ _ _ _ Hq Hy Hn) in Hs.
  destruct Hy as (obs & out & txt & _ & _ & _ & _ & He).
  apply extract_sql_text_nonempty in He.
  destruct q as [|c r]; [congruence | exact Hs].
Qed.

(** C3, amended.  When no trace yields a query, the provenance is the
    sequence of storage URIs of the retrieved references of the first
    collected trace that holds a knowledge-base lookup, in their order
    there. *)
Theorem first_kb_lookup_references
    response events pre t post uris text src :
  completion_of response events ->
  collected_traces events = pre ++ t :: post ->
  (forall t' r, In t' (collected_traces events) -> ~ yields_query t' r) ->
  (forall t', In t' pre -> ~ has_kb_lookup t') ->
  kb_uris t uris ->
  get_agent_response svc response = Ok (Answer text src) ->
  src = VList uris.
Proof.
  intros Hc Ht Hy Hn Hk H.
  destruct (get_agent_response_answer _ _ _ _ Hc H) as (q & _ & Hq & Hs).
  rewrite (query_loop_none _ _ Hq Hy) in Hs.
  apply query_loop_accepted in Hq. rewrite Ht in Hq, Hs.
  apply Forall_app in Hq as [Hpre _].
  rewrite (kb_scan_first pre t post uris Hpre Hn Hk) in Hs.
  cbn [try_except] in Hs. congruence.
Qed.

(** C4 fails on the code.  For a stream without a query and without a
    knowledge-base lookup the scan of [extract_source_list_from_kb] ends
    without a [return]: the provenance is [None], and [None], not the
    empty string, is what the output carries as source. *)
Theorem no_provenance_is_none response events text src :
  completion_of response events ->
  (forall t r, In t (collected_traces events) -> ~ yields_query t r) ->
  (forall t, In t (collected_traces events) -> ~ has_kb_lookup t) ->
  get_agent_response svc response = Ok (Answer text src) ->
  src = VNone /\
  build_output svc response
  = Ok (VDict [(lit "answer", VStr text); (lit "source", VNone)]).
Proof.
  intros Hc Hy Hn H.
  destruct (get_agent_response_answer _ _ _ _ Hc H) as (q & _ & Hq & Hs).
  rewrite (query_loop_none _ _ Hq Hy) in Hs.
  apply query_loop_accepted in Hq.
  rewrite (kb_scan_none _ Hq Hn) in Hs. cbn [try_except] in Hs.
  injection Hs as <-. split; [reflexivity|].
  unfold build_output. rewrite H. reflexivity.
Qed.

Lemma lambda_handler_reaches event response :
  reaches svc event response ->
  lambda_handler svc event =
  (output <- build_output svc response ;;
   dumped <- json_dumps svc output ;;
   Ok (VDict [(lit "statusCode", VInt 200); (lit "body", VStr dumped)])).
Proof.
  intros (dumped & raw & body & query & session_id
          & Hd & Hraw & Hbody & Hq & Hs & Hinv).
  unfold lambda_handler, invoke_agent. rewrite Hd. cbn [bind].
  rewrite (field_getitem _ _ _ Hraw). cbn [bind]. rewrite Hbody.
  cbn [bind]. rewrite (field_getitem _ _ _ Hq). cbn [bind].
  rewrite (field_getitem _ _ _ Hs). cbn [bind]. rewrite Hinv.
  reflexivity.
Qed.

(** C2 fails on the code.  For a response without the key [completion],
    [get_agent_response] returns the diagnostic as a bare string, and the
    two-name assignment of [lambda_handler] raises [ValueError] on it. *)
Theorem missing_completion_raises d :
  lookup (lit "completion") d = None ->
  get_agent_response svc (VDict d)
  = Ok (Diagnostic (lit "No completion found in response: "
                      ++ repr svc (VDict d))) /\
  build_output svc (VDict d) = Raise ValueError /\
  (forall event, reaches svc event (VDict d) ->
                 lambda_handler svc event = Raise ValueError).
Proof.
  intros H.
  assert (Hg : get_agent_response svc (VDict d)
               = Ok (Diagnostic (lit "No completion found in response: "
                                   ++ repr svc (VDict d)))).
  { unfold get_agent_response. cbn [contains]. unfold has_key.
    rewrite H. reflexivity. }
  assert (Hb : build_output svc (VDict d) = Raise ValueError).
  { unfold build_output. rewrite Hg. reflexivity. }
  repeat split; [exact Hg | exact Hb |].
  intros event Hr. rewrite (lambda_handler_reaches _ _ Hr), Hb.
  reflexivity.
Qed.

End Interpreter.

(** ** The citation list builder *)

Lemma pair_eqb_records a b :
  pair_eqb (as_value a) (as_value b) = true <-> a = b.
Proof.
  unfold pair_eqb, as_value. cbn [fst snd key_eqb].
  rewrite andb_true_iff, !str_eqb_eq.
  destruct a, b; cbn [fst snd]. split; [intros [-> ->] | intros [= -> ->]];
    auto.
Qed.

Lemma seen_records r acc :
  existsb (pair_eqb (as_value r)) (map as_value acc) = true <-> In r acc.
Proof.
  rewrite existsb_exists. split.
  - intros (x & Hin & Hx). apply in_map_iff in Hin as (b & <- & Hb).
    apply pair_eqb_records in Hx. subst b. exact Hb.
  - intros Hin. exists (as_value r). split.
    + apply in_map. exact Hin.
    + apply pair_eqb_records. reflexivity.
Qed.

Lemma filter_remove_seen r acc u :
  In r acc ->
  filter (fun x => if in_dec record_eq_dec x acc then false else true)
         (remove record_eq_dec r u)
  = filter (fun x => if in_dec record_eq_dec x acc then false else true) u.
Proof.
  intros Hin. induction u as [|x u IH]; cbn [remove filter].
  - reflexivity.
  - destruct (record_eq_dec r x) as [<-|Hne].
    + destruct (in_dec record_eq_dec r acc); [exact IH | contradiction].
    + cbn [filter]. rewrite IH. reflexivity.
Qed.

Lemma filter_remove_new r acc u :
  filter (fun x => if in_dec record_eq_dec x (acc ++ [r])
                   then false else true) u
  = filter (fun x => if in_dec record_eq_dec x acc then false else true)
           (remove record_eq_dec r u).
Proof.
  induction u as [|x u IH]; cbn [remove filter].
  - reflexivity.
  - destruct (record_eq_dec r x) as [<-|Hne].
    + destruct (in_dec record_eq_dec r (acc ++ [r])) as [_|Hn];
        [exact IH|].
      exfalso. apply Hn. apply in_or_app. right. left. reflexivity.
    + cbn [filter]. rewrite IH.
      destruct (in_dec record_eq_dec x (acc ++ [r])) as [Hin|Hn];
        destruct (in_dec record_eq_dec x acc) as [Hin'|Hn'];
        try reflexivity; exfalso.
      * apply in_app_or in Hin as [Hin|[Hin|[]]]; [auto | congruence].
      * apply Hn. apply in_or_app. left. exact Hin'.
Qed.

Lemma filter_seen_nothing (u : list record) :
  filter (fun x => if in_dec record_eq_dec x [] then false else true) u = u.
Proof.
  induction u as [|x u IH]; cbn [filter]; [reflexivity|].
  destruct (in_dec record_eq_dec x []) as [[]|_]. rewrite IH. reflexivity.
Qed.

(** The insertion loop of [OrderedDict.fromkeys] on records of text. *)
Lemma fromkeys_loop l : forall acc,
  for_each fromkeys_step (map as_value l) (map as_value acc)
  = Ok (map as_value
          (acc ++ filter (fun x => if in_dec record_eq_dec x acc
                                   then false else true)
                         (first_occurrences l))).
Proof.
  induction l as [|r l IH]; intros acc;
    cbn [map for_each first_occurrences filter].
  - rewrite app_nil_r. reflexivity.
  - unfold fromkeys_step at 1.
    cbn [bind pair_hashable as_value fst snd hashable andb].
    fold (as_value r).
    destruct (existsb (pair_eqb (as_value r)) (map as_value acc)) eqn:Hseen.
    + apply seen_records in Hseen.
      destruct (in_dec record_eq_dec r acc) as [_|Hn]; [|contradiction].
      rewrite IH, (filter_remove_seen r acc _ Hseen). reflexivity.
    + destruct (in_dec record_eq_dec r acc) as [Hin|_].
      * apply seen_records in Hin. congruence.
      * change (map as_value acc ++ [as_value r])
          with (map as_value acc ++ map as_value [r]).
        rewrite <- map_app, IH, filter_remove_new, <- app_assoc.
        reflexivity.
Qed.

Lemma first_occurrences_In l : forall r, In r (first_occurrences l) <-> In r l.
Proof.
  induction l as [|x l IH]; intros r; cbn [first_occurrences].
  - reflexivity.
  - split.
    + intros [->|Hin]; [left; reflexivity|].
      apply in_remove in Hin as [Hin _]. right. apply IH. exact Hin.
    + intros [->|Hin]; [left; reflexivity|].
      destruct (record_eq_dec x r) as [->|Hne]; [left; reflexivity|].
      right. apply in_in_remove; [congruence | apply IH; exact Hin].
Qed.

Lemma NoDup_remove_record r u : NoDup u -> NoDup (remove record_eq_dec r u).
Proof.
  induction 1 as [|x u Hx _ IH]; cbn [remove].
  - constructor.
  - destruct (record_eq_dec r x); [exact IH|].
    constructor; [|exact IH].
    intros Hin. apply in_remove in Hin as [Hin _]. contradiction.
Qed.

Lemma first_occurrences_NoDup l : NoDup (first_occurrences l).
Proof.
  induction l as [|x l IH]; cbn [first_occurrences]; constructor.
  - apply remove_In.
  - apply NoDup_remove_record. exact IH.
Qed.

(** A record that was seen before adds nothing; a new one comes last. *)
Lemma first_occurrences_snoc l r :
  first_occurrences (l ++ [r])
  = if in_dec record_eq_dec r l then first_occurrences l
    else first_occurrences l ++ [r].
Proof.
  induction l as [|x l IH]; cbn [app first_occurrences].
  - destruct (in_dec record_eq_dec r []) as [[]|_]. reflexivity.
  - rewrite IH.
    destruct (in_dec record_eq_dec r l) as [Hin|Hn];
      destruct (in_dec record_eq_dec r (x :: l)) as [Hin'|Hn'].
    + reflexivity.
    + exfalso. apply Hn'. right. exact Hin.
    + destruct Hin' as [->|Hin']; [|contradiction].
      rewrite remove_app. cbn [remove].
      destruct (record_eq_dec r r); [|congruence].
      rewrite app_nil_r. reflexivity.
    + rewrite remove_app. cbn [remove].
      destruct (record_eq_dec x r) as [->|_].
      * exfalso. apply Hn'. left. reflexivity.
      * reflexivity.
Qed.

Section Builder.

Variable svc : Services.

Lemma render_loop u : forall i s,
  fold_left (render_step svc) (map as_value u) (i, s)
  = (i + List.length u, s ++ reference_lines i u).
Proof.
  induction u as [|r u IH]; intros i s; cbn [map fold_left reference_lines].
  - rewrite Nat.add_0_r, app_nil_r. reflexivity.
  - unfold render_step at 2. cbn [as_value format_value].
    rewrite IH. cbn [List.length]. rewrite Nat.add_succ_r.
    unfold reference_line. rewrite <- !app_assoc. reflexivity.
Qed.

Lemma source_step_resolves acc k o :
  resolves svc k o ->
  source_step svc acc k
  = Ok (acc ++ match o with Some r => [as_value r] | None => [] end).
Proof.
  intros (body & (bucket & obj & Hloc & Hread) & Ho).
  unfold source_step. rewrite Hloc. cbn [bind fst snd]. rewrite Hread.
  cbn [bind]. unfold citation. cbn [decode].
  destruct o as [r|].
  - destruct Ho as (text & doc & -> & Hdoc & Hurl & Htopic).
    cbn [bind]. rewrite Hdoc. cbn [bind].
    rewrite (field_getitem _ _ _ Hurl). cbn [bind].
    rewrite (field_getitem _ _ _ Htopic). reflexivity.
  - rewrite Ho. cbn [bind try_except is_UnicodeDecodeError].
    rewrite app_nil_r. reflexivity.
Qed.

Lemma source_loop keys outcomes :
  Forall2 (resolves svc) keys outcomes ->
  forall acc,
    for_each (source_step svc) keys acc
    = Ok (acc ++ map as_value (resolved outcomes)).
Proof.
  induction 1 as [|k o keys outcomes Hk _ IH]; intros acc;
    cbn [for_each].
  - cbn. rewrite app_nil_r. reflexivity.
  - rewrite (source_step_resolves _ _ _ Hk). cbn [bind]. rewrite IH.
    unfold resolved. cbn [flat_map]. rewrite map_app, <- app_assoc.
    destruct o; reflexivity.
Qed.

Lemma source_link_eq keys :
  source_link svc keys =
  (source_dict_list <- for_each (source_step svc) keys [] ;;
   unique_sources <- for_each fromkeys_step source_dict_list [] ;;
   Ok (snd (fold_left (render_step svc) unique_sources (1, [])))).
Proof.
  reflexivity.
Qed.

(** C6.  The citation list builder keeps the first occurrence of every
    resolved record, in the order of first occurrence, and renders the
    records that remain as the lines ["{i}. [{title}]({link})\n\n"]
    numbered from 1; without keys it gives the empty string. *)
Theorem source_link_reference_list keys outcomes :
  Forall2 (resolves svc) keys outcomes ->
  let unique := first_occurrences (resolved outcomes) in
  source_link svc keys = Ok (reference_lines 1 unique) /\
  NoDup unique /\
  (forall r, In r unique <-> In r (resolved outcomes)) /\
  (keys = [] -> source_link svc keys = Ok []).
Proof.
  intros H unique. split; [|split; [|split]].
  - rewrite source_link_eq, (source_loop _ _ H). cbn [bind app].
    pose proof (fromkeys_loop (resolved outcomes) []) as Hf.
    cbn [map app] in Hf. rewrite Hf, filter_seen_nothing. cbn [bind].
    rewrite render_loop. reflexivity.
  - apply first_occurrences_NoDup.
  - apply first_occurrences_In.
  - intros ->. reflexivity.
Qed.

(** C8.  A key whose stored object is not UTF-8 text is passed over: the
    reference list of the batch is the one of the batch without that key,
    entry for entry. *)
Theorem undecodable_object_is_skipped pre k post body :
  stored svc k body ->
  utf8_decode body = None ->
  (forall acc, source_step svc acc k = Ok acc) /\
  source_link svc (pre ++ k :: post) = source_link svc (pre ++ post).
Proof.
  intros Hs Hu.
  assert (Hstep : forall acc, source_step svc acc k = Ok acc).
  { intros acc.
    rewrite (source_step_resolves acc k None);
      [rewrite app_nil_r; reflexivity|].
    exists body. split; assumption. }
  split; [exact Hstep|].
  rewrite !source_link_eq, !for_each_app. cbn [for_each].
  destruct (for_each (source_step svc) pre []) as [acc|x]; cbn [bind];
    [|reflexivity].
  rewrite Hstep. reflexivity.
Qed.

Lemma source_step_malformed acc k :
  malformed svc k -> source_step svc acc k = Raise KeyError.
Proof.
  intros (body & text & d & (bucket & obj & Hloc & Hread) & Hu & Hdoc & Hd).
  unfold source_step. rewrite Hloc. cbn [bind fst snd]. rewrite Hread.
  cbn [bind]. unfold citation. cbn [decode]. rewrite Hu. cbn [bind].
  rewrite Hdoc. cbn [bind getitem].
  destruct (lookup (lit "Url") d) as [url|]; cbn [bind].
  - destruct Hd as [Hd|Hd]; [discriminate|]. rewrite Hd. reflexivity.
  - reflexivity.
Qed.

(** C9.  A stored object that is JSON text without [Url] or without
    [Topic] makes the resolution raise [KeyError]; nothing catches it, so
    it ends the batch, the building of the output and the request. *)
Theorem malformed_record_aborts pre outcomes k post :
  Forall2 (resolves svc) pre outcomes ->
  malformed svc k ->
  source_link svc (pre ++ k :: post) = Raise KeyError /\
  (forall response text,
     get_agent_response svc response
     = Ok (Answer text (VList (pre ++ k :: post))) ->
     build_output svc response = Raise KeyError /\
     (forall event, reaches svc event response ->
                    lambda_handler svc event = Raise KeyError)).
Proof.
  intros Hpre Hk.
  assert (Hl : source_link svc (pre ++ k :: post) = Raise KeyError).
  { rewrite source_link_eq, for_each_app, (source_loop _ _ Hpre).
    cbn [bind for_each]. rewrite (source_step_malformed _ _ Hk).
    reflexivity. }
  split; [exact Hl|]. intros response text Hg.
  assert (Hb : build_output svc response = Raise KeyError).
  { unfold build_output. rewrite Hg. cbn [bind unpack_pair]. rewrite Hl.
    reflexivity. }
  split; [exact Hb|]. intros event Hr.
  rewrite (lambda_handler_reaches _ _ _ Hr), Hb. reflexivity.
Qed.

End Builder.

(** ** The theorems at concrete streams and stores *)

Section Examples.

Import Fixture.

Local Open Scope string_scope.

Ltac refute_yields H :=
  let obs := fresh "obs" in
  let out := fresh "out" in
  let text := fresh "text" in
  let Ho := fresh "Ho" in
  let Hty := fresh "Hty" in
  let Hout := fresh "Hout" in
  let Htext := fresh "Htext" in
  let He := fresh "He" in
  destruct H as (obs & out & text & Ho & Hty & Hout & Htext & He);
  vm_compute in Ho; injection Ho as <-;
  vm_compute in Hty; try discriminate Hty;
  vm_compute in Hout; injection Hout as <-;
  vm_compute in Htext; injection Htext as <-;
  vm_compute in He; discriminate He.

Ltac refute_action_group H :=
  let obs := fresh "obs" in
  let Ho := fresh "Ho" in
  let Hty := fresh "Hty" in
  destruct H as (obs & Ho & Hty);
  vm_compute in Ho; injection Ho as <-;
  vm_compute in Hty; discriminate Hty.

Ltac refute_kb_lookup H :=
  let obs := fresh "obs" in
  let kb := fresh "kb" in
  let Ho := fresh "Ho" in
  let Hkb := fresh "Hkb" in
  destruct H as (obs & kb & Ho & Hkb);
  vm_compute in Ho; injection Ho as <-;
  vm_compute in Hkb; discriminate Hkb.

Lemma answer_is_last_chunk_witness :
  exists b text src,
    field (dict [("bytes", VBytes (bytes_of "ok"))]) "bytes"
      = Some (VBytes b) /\
    utf8_decode b = Some text /\
    get_agent_response plain
      (stream (chunks_before ++ chunk_event "ok" :: chunks_after)%list)
    = Ok (Answer text src).
Proof.
  apply (answer_is_last_chunk plain
           (stream (chunks_before ++ chunk_event "ok" :: chunks_after)%list)
           chunks_before (chunk_event "ok") chunks_after
           (dict [("bytes", VBytes (bytes_of "ok"))])).
  - reflexivity.
  - reflexivity.
  - repeat constructor.
  - repeat constructor;
      (eexists; split; [reflexivity|]; intros chunk H; vm_compute in H;
       first [discriminate H
             | injection H as <-; eexists; eexists; split;
               vm_compute; reflexivity]).
  - repeat constructor; exists None; eexists; vm_compute; reflexivity.
Defined.

Lemma no_chunk_no_answer_witness :
  (exists x, get_agent_response plain (stream no_chunk) = Raise x) /\
  (forall st q,
     for_each event_step no_chunk ([], None) = Ok st ->
     for_each query_step (fst st) None = Ok q ->
     get_agent_response plain (stream no_chunk) = Raise UnboundLocalError).
Proof.
  apply (no_chunk_no_answer plain (stream no_chunk) no_chunk).
  - reflexivity.
  - repeat constructor.
Defined.

Lemma last_action_group_query_wins_witness :
  exists src,
    get_agent_response plain (stream query_last)
    = Ok (Answer (lit "ok") src) /\
    src = VStr (lit "SELECT 1").
Proof.
  exists (VStr (lit "SELECT 1")). split; [vm_compute; reflexivity|].
  apply (last_action_group_query_wins plain (stream query_last) query_last
           [trace_record (action_group "nothing")]
           (trace_record
              (action_group ("SELECT 1" ++ nl ++ "Returned information: 1")))
           [trace_record (kb_lookup ["s3://b/k1"])]
           (lit "SELECT 1") (lit "ok") (VStr (lit "SELECT 1"))).
  - reflexivity.
  - reflexivity.
  - exists (action_group ("SELECT 1" ++ nl ++ "Returned information: 1")),
      (dict [("text",
              VStr (lit ("SELECT 1" ++ nl ++ "Returned information: 1")))]),
      (lit ("SELECT 1" ++ nl ++ "Returned information: 1")).
    repeat split; vm_compute; reflexivity.
  - intros t' [<-|[]] H. refute_action_group H.
  - vm_compute. reflexivity.
Defined.

(** C1 as stated fails: the first trace yields the query [SELECT 1], the
    second ACTION_GROUP trace yields none, and the provenance is the
    knowledge-base reference. *)
Lemma earlier_query_is_overridden :
  In (trace_record (action_group ("SELECT 1" ++ nl)))
     (collected_traces query_first) /\
  yields_query (trace_record (action_group ("SELECT 1" ++ nl)))
               (lit "SELECT 1") /\
  get_agent_response plain (stream query_first)
  = Ok (Answer (lit "ok") (VList [key "s3://b/k1"])).
Proof.
  split; [left; reflexivity|]. split; [|vm_compute; reflexivity].
  exists (action_group ("SELECT 1" ++ nl)),
    (dict [("text", VStr (lit ("SELECT 1" ++ nl)))]),
    (lit ("SELECT 1" ++ nl)).
  repeat split; vm_compute; reflexivity.
Qed.

Lemma first_kb_lookup_references_witness :
  exists src,
    get_agent_response plain (stream two_lookups)
    = Ok (Answer (lit "ok") src) /\
    src = VList [key "s3://b/k1"; key "s3://b/k2"].
Proof.
  exists (VList [key "s3://b/k1"; key "s3://b/k2"]).
  split; [vm_compute; reflexivity|].
  apply (first_kb_lookup_references plain (stream two_lookups) two_lookups
           [trace_record (action_group "nothing")]
           (trace_record (kb_lookup ["s3://b/k1"; "s3://b/k2"]))
           [trace_record (kb_lookup ["s3://b/k4"])]
           [key "s3://b/k1"; key "s3://b/k2"] (lit "ok")).
  - reflexivity.
  - reflexivity.
  - intros t' r [<-|[<-|[<-|[]]]] H; refute_yields H.
  - intros t' [<-|[]] H. refute_kb_lookup H.
  - exists (kb_lookup ["s3://b/k1"; "s3://b/k2"]),
      (dict [("retrievedReferences",
              VList (map reference ["s3://b/k1"; "s3://b/k2"]))]),
      (map reference ["s3://b/k1"; "s3://b/k2"]).
    repeat split; try (vm_compute; reflexivity).
    repeat constructor;
      eexists; eexists; repeat split; vm_compute; reflexivity.
  - vm_compute. reflexivity.
Defined.

(** C3 as stated fails: the second lookup retrieved [s3://b/k4], and the
    provenance does not hold it. *)
Lemma later_lookup_is_dropped :
  In (trace_record (kb_lookup ["s3://b/k4"])) (collected_traces two_lookups) /\
  kb_uris (trace_record (kb_lookup ["s3://b/k4"])) [key "s3://b/k4"] /\
  (forall t r, In t (collected_traces two_lookups) -> ~ yields_query t r) /\
  get_agent_response plain (stream two_lookups)
  = Ok (Answer (lit "ok") (VList [key "s3://b/k1"; key "s3://b/k2"])) /\
  ~ In (key "s3://b/k4") [key "s3://b/k1"; key "s3://b/k2"].
Proof.
  split; [right; right; left; reflexivity|]. split; [|split; [|split]].
  - exists (kb_lookup ["s3://b/k4"]),
      (dict [("retrievedReferences", VList (map reference ["s3://b/k4"]))]),
      (map reference ["s3://b/k4"]).
    repeat split; try (vm_compute; reflexivity).
    repeat constructor;
      eexists; eexists; repeat split; vm_compute; reflexivity.
  - intros t' r [<-|[<-|[<-|[]]]] H; refute_yields H.
  - vm_compute. reflexivity.
  - intros [H|[H|[]]]; vm_compute in H; discriminate H.
Qed.

Lemma no_provenance_is_none_witness :
  exists src,
    get_agent_response plain (stream no_provenance)
    = Ok (Answer (lit "ok") src) /\
    src = VNone /\
    build_output plain (stream no_provenance)
    = Ok (VDict [(lit "answer", VStr (lit "ok")); (lit "source", VNone)]).
Proof.
  exists VNone. split; [vm_compute; reflexivity|].
  apply (no_provenance_is_none plain (stream no_provenance) no_provenance
           (lit "ok") VNone).
  - reflexivity.
  - intros t' r [<-|[]] H; refute_yields H.
  - intros t' [<-|[]] H. refute_kb_lookup H.
  - vm_compute. reflexivity.
Defined.

Lemma missing_completion_raises_witness :
  lambda_handler silent_agent request = Raise ValueError.
Proof.
  apply (missing_completion_raises silent_agent []).
  - reflexivity.
  - exists (lit "{}"), (VStr (lit "{}")), request_body,
      (VStr (lit "q")), (VStr (lit "s")).
    repeat split; vm_compute; reflexivity.
Defined.

Ltac resolve_key body :=
  exists body; split;
  [ eexists; eexists; split; vm_compute; reflexivity
  | try (vm_compute; reflexivity);
    eexists; eexists; repeat split; vm_compute; reflexivity ].

Lemma source_link_reference_list_witness :
  let unique := first_occurrences
                  (resolved [Some (lit "A", lit "L1"); None;
                             Some (lit "A", lit "L1");
                             Some (lit "B", lit "L2")]) in
  source_link library
    [key "s3://b/k1"; key "s3://b/k2"; key "s3://b/k3"; key "s3://b/k4"]
  = Ok (reference_lines 1 unique) /\
  NoDup unique /\
  (forall r, In r unique <->
             In r (resolved [Some (lit "A", lit "L1"); None;
                             Some (lit "A", lit "L1");
                             Some (lit "B", lit "L2")])) /\
  ([key "s3://b/k1"; key "s3://b/k2"; key "s3://b/k3"; key "s3://b/k4"] = [] ->
   source_link library
     [key "s3://b/k1"; key "s3://b/k2"; key "s3://b/k3"; key "s3://b/k4"]
   = Ok []).
Proof.
  apply (source_link_reference_list library).
  repeat constructor.
  - resolve_key (bytes_of "A1").
  - resolve_key [xff].
  - resolve_key (bytes_of "A1").
  - resolve_key (bytes_of "B2").
Defined.

Lemma undecodable_object_is_skipped_witness :
  (forall acc, source_step library acc (key "s3://b/k2") = Ok acc) /\
  source_link library
    ([key "s3://b/k1"] ++ key "s3://b/k2" :: [key "s3://b/k4"])%list
  = source_link library ([key "s3://b/k1"] ++ [key "s3://b/k4"])%list.
Proof.
  apply (undecodable_object_is_skipped library
           [key "s3://b/k1"] (key "s3://b/k2") [key "s3://b/k4"] [xff]).
  - eexists; eexists; split; vm_compute; reflexivity.
  - vm_compute. reflexivity.
Defined.

Lemma malformed_record_aborts_witness :
  source_link library
    ([key "s3://b/k1"] ++ key "s3://b/k5" :: [key "s3://b/k4"])%list
  = Raise KeyError /\
  (forall response text,
     get_agent_response library response
     = Ok (Answer text
             (VList ([key "s3://b/k1"] ++ key "s3://b/k5"
                       :: [key "s3://b/k4"])%list)) ->
     build_output library response = Raise KeyError /\
     (forall event, reaches library event response ->
                    lambda_handler library event = Raise KeyError)).
Proof.
  apply (malformed_record_aborts library
           [key "s3://b/k1"] [Some (lit "A", lit "L1")]
           (key "s3://b/k5") [key "s3://b/k4"]).
  - repeat constructor. resolve_key (bytes_of "A1").
  - exists (bytes_of "bad"), (lit "bad"), [(lit "Url", VStr (lit "L2"))].
    split; [eexists; eexists; split; vm_compute; reflexivity|].
    split; [vm_compute; reflexivity|].
    split; [vm_compute; reflexivity|].
    right. vm_compute. reflexivity.
Defined.

End Examples.

(** ** Further properties of the extractor *)

Lemma terminator_head t : terminator t -> exists t', t = Re.NL :: t'.
Proof.
  intros (w & rest & -> & _). eexists. reflexivity.
Qed.

(** X1.  A text without a line break holds no query for the extractor,
    whatever else it holds. *)
Theorem no_line_break_no_query s :
  ~ In Re.NL s -> extract_sql_query (VStr s) = Ok None.
Proof.
  intros Hn. unfold extract_sql_query, extract_sql_text.
  destruct (Re.search s) as [g|] eqn:Hs; [|reflexivity].
  exfalso. apply search_spec in Hs.
  destruct Hs as (pre & kw & body & post & -> & _ & _ & _ & Ht & _).
  apply terminator_head in Ht as (t' & ->).
  apply Hn. rewrite !in_app_iff. right. right. right. left. reflexivity.
Qed.

Ltac letter_not_space H :=
  unfold Re.ci_match in H; cbn in H;
  repeat (apply orb_true_iff in H as [H|H]); try discriminate H;
  apply N.eqb_eq in H; subst; reflexivity.

Lemma select_word_no_space kw :
  ci_word Re.SELECT kw -> Forall (fun c => isspace c = false) kw.
Proof.
  intros H.
  repeat (match goal with
          | H : ci_word _ _ |- _ => inversion H; clear H; subst
          | H : Forall2 _ _ _ |- _ => inversion H; clear H; subst
          end).
  repeat constructor;
    match goal with
    | |- isspace ?c = false =>
        match goal with
        | H : Re.ci_match _ c = true |- _ => letter_not_space H
        end
    end.
Qed.

Lemma lstrip_split l :
  exists w,
    l = w ++ lstrip l /\ blank w /\
    (lstrip l = [] \/
     exists c l', lstrip l = c :: l' /\ isspace c = false).
Proof.
  induction l as [|x l (w & Hl & Hw & Hc)]; cbn [lstrip].
  - exists []. repeat split; [constructor | left; reflexivity].
  - destruct (isspace x) eqn:Hx.
    + exists (x :: w). repeat split.
      * cbn [app]. congruence.
      * constructor; assumption.
      * exact Hc.
    + exists []. repeat split; [constructor|].
      right. exists x, l. split; [reflexivity | exact Hx].
Qed.

Lemma lstrip_head c l : isspace c = false -> lstrip (c :: l) = c :: l.
Proof.
  intros H. cbn [lstrip]. rewrite H. reflexivity.
Qed.

Lemma blank_rev w : blank w -> blank (rev w).
Proof.
  unfold blank. intros H. apply Forall_rev. exact H.
Qed.

(** The trimmed span: the span without a whitespace tail. *)
Lemma strip_span c l :
  isspace c = false ->
  exists w,
    c :: l = strip (c :: l) ++ w /\ blank w /\
    forall x d, strip (c :: l) = x ++ [d] -> isspace d = false.
Proof.
  intros Hc. unfold strip. rewrite (lstrip_head c l Hc).
  destruct (lstrip_split (rev (c :: l))) as (w & Hl & Hw & Hd).
  exists (rev w). split; [|split].
  - rewrite <- rev_app_distr, <- Hl, rev_involutive. reflexivity.
  - apply blank_rev. exact Hw.
  - intros x d E. destruct Hd as [Hd|(e & l' & Hd & He)].
    + rewrite Hd in E. destruct x; discriminate E.
    + rewrite Hd in E. cbn [rev] in E.
      apply app_inj_tail in E as [_ <-]. exact He.
Qed.

(** X2.  A query the extractor returns is a connected part of the input;
    it begins with the token SELECT and ends in a code point that is not
    whitespace. *)
Theorem query_shape s r :
  extract_sql_query (VStr s) = Ok (Some r) ->
  (exists a b, s = a ++ r ++ b) /\
  select_at r /\
  (exists x d, r = x ++ [d] /\ isspace d = false).
Proof.
  unfold extract_sql_query, extract_sql_text.
  destruct (Re.search s) as [g|] eqn:Hs; [|discriminate].
  intros H. injection H as <-. apply search_spec in Hs.
  destruct Hs as (pre & kw & body & post & -> & -> & Hkw & _).
  pose proof (select_word_no_space kw Hkw) as Hns.
  destruct kw as [|c kw]; [inversion Hkw|].
  assert (Hc : isspace c = false) by (inversion Hns; assumption).
  cbn [app].
  destruct (strip_span c (kw ++ body) Hc) as (w & Hsp & Hw & Hlast).
  assert (Hpre : exists tl, strip (c :: kw ++ body) = (c :: kw) ++ tl).
  { change (c :: kw ++ body) with ((c :: kw) ++ body) in Hsp at 1.
    apply app_eq_app in Hsp as [l [[E1 E2] | [E1 E2]]].
    - destruct l as [|x l].
      + exists []. rewrite app_nil_r in E1. rewrite app_nil_r.
        congruence.
      + exfalso. subst w. rewrite E1 in Hns.
        apply Forall_app in Hns as [_ Hns].
        inversion Hns as [|? ? Hx _]; subst.
        cbn [app] in Hw. inversion Hw as [|? ? Hx' _]; subst.
        congruence.
    - exists l. exact E1. }
  split; [|split].
  - exists pre, (w ++ post).
    rewrite (app_assoc (strip (c :: kw ++ body)) w post), <- Hsp.
    cbn [app]. rewrite <- app_assoc. reflexivity.
  - destruct Hpre as (tl & ->). exists (c :: kw), tl.
    split; [reflexivity | exact Hkw].
  - destruct (strip (c :: kw ++ body)) as [|y r] eqn:Hr using rev_ind.
    + destruct Hpre as (tl & Hpre). discriminate Hpre.
    + exists r, y. split; [reflexivity|]. exact (Hlast r y eq_refl).
Qed.

Lemma no_select_before pre rest :
  Forall (fun c => Re.ci_match 83 c = false) pre ->
  forall p1 p2, pre = p1 ++ p2 -> p2 <> [] -> ~ select_at (p2 ++ rest).
Proof.
  intros Hpre p1 p2 -> Hp2 (kw & tl & E & Hkw).
  apply Forall_app in Hpre as [_ Hpre].
  destruct p2 as [|c p2]; [congruence|].
  inversion Hpre as [|? ? Hc _]; subst.
  inversion Hkw as [|a c' p w Hm Hrest]; subst.
  cbn [app] in E. injection E as <- _. congruence.
Qed.

Lemma phrase_head rest :
  phrase_at rest -> exists c tl, rest = c :: tl /\ Re.ci_match 82 c = true.
Proof.
  intros (ph & tl & -> & Hph).
  inversion Hph as [|a c p w Hc Hrest]; subst.
  exists c, (w ++ tl). split; [reflexivity | exact Hc].
Qed.

Lemma R_not_space c : Re.ci_match 82 c = true -> isspace c = false.
Proof.
  intros H. letter_not_space H.
Qed.

(** Whitespace before a code point that is neither whitespace nor the
    letter R is not the beginning of a terminator. *)
Lemma lines_go_on_no_terminator w c b3 post :
  blank w -> isspace c = false -> Re.ci_match 82 c = false ->
  ~ terminator (Re.NL :: w ++ c :: b3 ++ post).
Proof.
  intros Hw Hc Hr (w' & rest & E & Hw' & Hrest).
  injection E as E.
  apply app_eq_app in E as [l [[E1 E2] | [E1 E2]]].
  - (* the blank run of the terminator is the shorter one *)
    destruct l as [|x l].
    + cbn [app] in E2. subst rest.
      destruct Hrest as [Hrest|Hrest]; [discriminate Hrest|].
      apply phrase_head in Hrest as (c' & tl & [= <- _] & Hc').
      congruence.
    + subst rest w. apply Forall_app in Hw as [_ Hw].
      inversion Hw as [|? ? Hx _]; subst.
      destruct Hrest as [Hrest|Hrest]; [discriminate Hrest|].
      apply phrase_head in Hrest as (c' & tl & [= <- _] & Hc').
      apply R_not_space in Hc'. congruence.
  - (* the blank run of the terminator reaches [c] *)
    destruct l as [|x l].
    + cbn [app] in E2. subst rest.
      destruct Hrest as [Hrest|Hrest]; [discriminate Hrest|].
      apply phrase_head in Hrest as (c' & tl & [= <- _] & Hc').
      congruence.
    + injection E2 as <- _. subst w'.
      apply Forall_app in Hw' as [_ Hw'].
      inversion Hw' as [|? ? Hx _]; subst. congruence.
Qed.

(** X3.  A query whose lines go on without a line that begins with R, led
    in by text without the letter S and followed by a line that begins,
    after optional whitespace, with the phrase [Returned information]:
    the extractor returns the query lines trimmed, and nothing of what
    follows. *)
Theorem query_before_returned_information pre kw body w tail :
  Forall (fun c => Re.ci_match 83 c = false) pre ->
  ci_word Re.SELECT kw ->
  lines_go_on body ->
  blank w ->
  phrase_at tail ->
  extract_sql_query (VStr (pre ++ kw ++ body ++ Re.NL :: w ++ tail))
  = Ok (Some (strip (kw ++ body))).
Proof.
  intros Hpre Hkw Hbody Hw Htail.
  unfold extract_sql_query, extract_sql_text.
  assert (Hs : Re.search (pre ++ kw ++ body ++ Re.NL :: w ++ tail)
               = Some (kw ++ body)).
  { apply search_spec.
    exists pre, kw, body, (Re.NL :: w ++ tail).
    repeat split; try assumption.
    - apply no_select_before. exact Hpre.
    - exists w, tail. repeat split; [exact Hw | right; exact Htail].
    - intros b1 b2 E Hb2 Ht.
      destruct (terminator_head _ Ht) as (t' & Et).
      destruct b2 as [|x b2]; [congruence|].
      cbn [app] in Et. injection Et as -> _.
      destruct (Hbody b1 b2 E) as (w' & c & b3 & -> & Hw' & Hc & Hr).
      revert Ht. cbn [app]. rewrite <- app_assoc. cbn [app].
      apply lines_go_on_no_terminator; assumption. }
  rewrite Hs. reflexivity.
Qed.

(** ** Storage keys *)

Lemma double_slash : lit "//" = [47; 47]%N.
Proof.
  reflexivity.
Qed.

Lemma split_no_separator s : forall cur,
  substring (lit "//") s = false ->
  split_from (lit "//") 0 cur s = [rev cur ++ s].
Proof.
  rewrite double_slash.
  induction s as [|c s IH]; intros cur H.
  - cbn [split_from]. rewrite app_nil_r. reflexivity.
  - cbn [substring] in H. apply orb_false_iff in H as [H1 H2].
    cbn [split_from]. rewrite H1, (IH _ H2). cbn [rev].
    rewrite <- app_assoc. reflexivity.
Qed.

Lemma split_first_separator a : forall cur rest,
  no_double_slash a ->
  split_from (lit "//") 0 cur (a ++ lit "//" ++ rest)
  = (rev cur ++ a) :: split_from (lit "//") 0 [] rest.
Proof.
  unfold no_double_slash. rewrite double_slash.
  induction a as [|c a IH]; intros cur rest H.
  - cbn. rewrite app_nil_r. reflexivity.
  - cbn [substring] in H. apply orb_false_iff in H as [H1 H2].
    assert (H1' : starts_with [47%N; 47%N]
                    ((c :: a) ++ [47%N; 47%N] ++ rest) = false).
    { rewrite <- H1. destruct a; reflexivity. }
    cbn [app split_from] in *. rewrite H1', (IH _ _ H2). cbn [rev].
    rewrite <- app_assoc. reflexivity.
Qed.

Lemma partition1_first bucket path :
  ~ In 47%N bucket ->
  partition1 47 (bucket ++ 47%N :: path) = (bucket, path).
Proof.
  induction bucket as [|c bucket IH]; intros H; cbn [app partition1].
  - reflexivity.
  - destruct (N.eqb_spec c 47) as [->|_].
    + exfalso. apply H. left. reflexivity.
    + rewrite IH; [reflexivity|]. intros Hin. apply H. right. exact Hin.
Qed.

Lemma partition1_none s : ~ In 47%N s -> partition1 47 s = (s, []).
Proof.
  induction s as [|c s IH]; intros H; cbn [partition1].
  - reflexivity.
  - destruct (N.eqb_spec c 47) as [->|_].
    + exfalso. apply H. left. reflexivity.
    + rewrite IH; [reflexivity|]. intros Hin. apply H. right. exact Hin.
Qed.

Lemma no_slash_no_double_slash s :
  ~ In 47%N s -> substring (lit "//") s = false.
Proof.
  rewrite double_slash.
  induction s as [|c s IH]; intros H; cbn [substring starts_with].
  - reflexivity.
  - rewrite IH; [|intros Hin; apply H; right; exact Hin].
    destruct (N.eqb_spec 47 c) as [<-|_]; [|reflexivity].
    exfalso. apply H. left. reflexivity.
Qed.

(** X4.  A storage URI [scheme://bucket/path] is taken apart into its
    bucket and its path; one without a slash after the bucket gives the
    empty path. *)
Theorem bucket_and_object_of_uri scheme bucket path :
  no_double_slash scheme ->
  ~ In 47%N bucket ->
  substring (lit "//") (bucket ++ 47%N :: path) = false ->
  bucket_and_object (VStr (scheme ++ lit "//" ++ bucket ++ 47%N :: path))
  = Ok (bucket, path) /\
  bucket_and_object (VStr (scheme ++ lit "//" ++ bucket)) = Ok (bucket, []).
Proof.
  intros Hs Hb Hp. unfold bucket_and_object, Py.split. split.
  - rewrite (split_first_separator scheme [] _ Hs),
      (split_no_separator _ [] Hp).
    cbn [nth_error rev app]. rewrite (partition1_first _ _ Hb).
    reflexivity.
  - rewrite (split_first_separator scheme [] _ Hs),
      (split_no_separator _ [] (no_slash_no_double_slash _ Hb)).
    cbn [nth_error rev app]. rewrite (partition1_none _ Hb).
    reflexivity.
Qed.

(** X5.  What follows a second [//] in a storage URI is dropped: the key
    is read as if it ended there. *)
Theorem second_double_slash_cuts_path scheme bucket path rest :
  no_double_slash scheme ->
  ~ In 47%N bucket ->
  no_double_slash (bucket ++ 47%N :: path) ->
  bucket_and_object
    (VStr (scheme ++ lit "//" ++ (bucket ++ 47%N :: path) ++ lit "//" ++ rest))
  = Ok (bucket, path).
Proof.
  intros Hs Hb Hp. unfold bucket_and_object, Py.split.
  rewrite (split_first_separator scheme [] _ Hs),
    (split_first_separator _ [] rest Hp).
  cbn [nth_error rev app]. rewrite (partition1_first _ _ Hb).
  reflexivity.
Qed.

Section BuilderMore.

Variable svc : Services.

Lemma source_link_abort pre outcomes k post x :
  Forall2 (resolves svc) pre outcomes ->
  (forall acc, source_step svc acc k = Raise x) ->
  source_link svc (pre ++ k :: post) = Raise x.
Proof.
  intros Hpre Hk.
  rewrite source_link_eq, for_each_app, (source_loop _ _ _ Hpre).
  cbn [bind for_each]. rewrite Hk. reflexivity.
Qed.

Lemma source_link_skip pre k post :
  (forall acc, source_step svc acc k = Ok acc) ->
  source_link svc (pre ++ k :: post) = source_link svc (pre ++ post).
Proof.
  intros Hk. rewrite !source_link_eq, !for_each_app. cbn [for_each].
  destruct (for_each (source_step svc) pre []) as [acc|x]; cbn [bind];
    [|reflexivity].
  rewrite Hk. reflexivity.
Qed.

Lemma source_link_of_outcomes keys outcomes :
  Forall2 (resolves svc) keys outcomes ->
  source_link svc keys
  = Ok (reference_lines 1 (first_occurrences (resolved outcomes))).
Proof.
  intros H. rewrite source_link_eq, (source_loop _ _ _ H). cbn [bind app].
  pose proof (fromkeys_loop (resolved outcomes) []) as Hf.
  cbn [map app] in Hf. rewrite Hf, filter_seen_nothing. cbn [bind].
  rewrite render_loop. reflexivity.
Qed.

(** X6.  A key without [//] makes [source_link] raise [IndexError]: the
    batch ends there, whatever the keys before it gave. *)
Theorem key_without_separator_aborts pre outcomes s post :
  Forall2 (resolves svc) pre outcomes ->
  substring (lit "//") s = false ->
  bucket_and_object (VStr s) = Raise IndexError /\
  source_link svc (pre ++ VStr s :: post) = Raise IndexError.
Proof.
  intros Hpre Hs.
  assert (Hb : bucket_and_object (VStr s) = Raise IndexError).
  { unfold bucket_and_object, Py.split.
    rewrite (split_no_separator _ [] Hs). reflexivity. }
  split; [exact Hb|].
  apply (source_link_abort pre outcomes); [exact Hpre|].
  intros acc. unfold source_step. rewrite Hb. reflexivity.
Qed.

(** X7.  An error of the object store while a key is read ends the batch
    with that error. *)
Theorem read_error_aborts pre outcomes k bucket obj post x :
  Forall2 (resolves svc) pre outcomes ->
  bucket_and_object k = Ok (bucket, obj) ->
  s3_read svc bucket obj = Raise x ->
  source_link svc (pre ++ k :: post) = Raise x.
Proof.
  intros Hpre Hb Hr.
  apply (source_link_abort pre outcomes); [exact Hpre|].
  intros acc. unfold source_step. rewrite Hb. cbn [bind fst snd].
  rewrite Hr. reflexivity.
Qed.

(** X8.  An error of [json.loads] on a stored text ends the batch with
    that error, unless it is a [UnicodeDecodeError], which the handler
    of the decoding takes for its own and passes the key over. *)
Theorem json_error_aborts pre outcomes k body text post x :
  Forall2 (resolves svc) pre outcomes ->
  stored svc k body ->
  utf8_decode body = Some text ->
  json_loads svc (VStr text) = Raise x ->
  source_link svc (pre ++ k :: post)
  = if is_UnicodeDecodeError x
    then source_link svc (pre ++ post)
    else Raise x.
Proof.
  intros Hpre (bucket & obj & Hb & Hr) Hu Hj.
  assert (Hstep : forall acc,
             source_step svc acc k
             = if is_UnicodeDecodeError x then Ok acc else Raise x).
  { intros acc. unfold source_step. rewrite Hb. cbn [bind fst snd].
    rewrite Hr. cbn [bind]. unfold citation. cbn [decode]. rewrite Hu.
    cbn [bind]. rewrite Hj. cbn [bind try_except].
    destruct (is_UnicodeDecodeError x); reflexivity. }
  destruct (is_UnicodeDecodeError x).
  - apply source_link_skip. exact Hstep.
  - apply (source_link_abort pre outcomes); assumption.
Qed.

End BuilderMore.

Lemma first_occurrences_remove r l :
  first_occurrences (remove record_eq_dec r l)
  = remove record_eq_dec r (first_occurrences l).
Proof.
  induction l as [|x l IH]; cbn [remove first_occurrences].
  - reflexivity.
  - destruct (record_eq_dec r x) as [<-|Hne].
    + rewrite IH. cbn [remove].
      destruct (record_eq_dec r r); [|congruence].
      symmetry. apply remove_remove_eq.
    + cbn [first_occurrences remove].
      destruct (record_eq_dec r x); [congruence|].
      rewrite IH, remove_remove_comm. reflexivity.
Qed.

Lemma first_occurrences_dup a : forall r b,
  In r a -> first_occurrences (a ++ r :: b) = first_occurrences (a ++ b).
Proof.
  induction a as [|x a IH]; intros r b Hin; [destruct Hin|].
  cbn [app first_occurrences]. f_equal.
  destruct (in_dec record_eq_dec r a) as [Ha|Hn].
  - rewrite (IH _ _ Ha). reflexivity.
  - destruct Hin as [->|Hin]; [|contradiction].
    rewrite <- !first_occurrences_remove, !remove_app, remove_cons.
    reflexivity.
Qed.

Lemma resolved_app a b : resolved (a ++ b) = resolved a ++ resolved b.
Proof.
  apply flat_map_app.
Qed.

Lemma fromkeys_unhashable l : forall acc,
  Exists (fun r => pair_hashable r = false) l ->
  for_each fromkeys_step l acc = Raise TypeError.
Proof.
  induction l as [|r l IH]; intros acc H; [inversion H|].
  cbn [for_each]. unfold fromkeys_step at 1.
  destruct (pair_hashable r) eqn:Hr; [|reflexivity].
  cbn [bind]. apply IH. inversion H; subst; [congruence | assumption].
Qed.

Section BuilderRecords.

Variable svc : Services.

(** X9.  A key whose record an earlier key of the batch has already given
    changes nothing: the list is the one of the batch without it. *)
Theorem repeated_record_adds_nothing pre os k r post os' :
  Forall2 (resolves svc) pre os ->
  resolves svc k (Some r) ->
  In r (resolved os) ->
  Forall2 (resolves svc) post os' ->
  source_link svc (pre ++ k :: post) = source_link svc (pre ++ post).
Proof.
  intros Hpre Hk Hin Hpost.
  rewrite (source_link_of_outcomes svc (pre ++ k :: post)
             (os ++ Some r :: os')),
    (source_link_of_outcomes svc (pre ++ post) (os ++ os')).
  - rewrite !resolved_app.
    change (resolved (Some r :: os')) with (r :: resolved os').
    rewrite (first_occurrences_dup _ _ _ Hin). reflexivity.
  - apply Forall2_app; assumption.
  - apply Forall2_app; [assumption|]. constructor; assumption.
Qed.

Lemma source_step_value acc k r :
  resolves_value svc k r -> source_step svc acc k = Ok (acc ++ [r]).
Proof.
  intros (body & text & doc & (bucket & obj & Hloc & Hread)
          & Hu & Hdoc & Hurl & Htopic).
  unfold source_step. rewrite Hloc. cbn [bind fst snd]. rewrite Hread.
  cbn [bind]. unfold citation. cbn [decode]. rewrite Hu. cbn [bind].
  rewrite Hdoc. cbn [bind].
  rewrite (field_getitem _ _ _ Hurl). cbn [bind].
  rewrite (field_getitem _ _ _ Htopic). cbn [bind try_except].
  destruct r. reflexivity.
Qed.

Lemma source_loop_values keys recs :
  Forall2 (resolves_value svc) keys recs ->
  forall acc, for_each (source_step svc) keys acc = Ok (acc ++ recs).
Proof.
  induction 1 as [|k r keys recs Hk _ IH]; intros acc; cbn [for_each].
  - rewrite app_nil_r. reflexivity.
  - rewrite (source_step_value _ _ _ Hk). cbn [bind].
    rewrite IH, <- app_assoc. reflexivity.
Qed.

(** X10.  A record whose [Url] or [Topic] is a JSON array or object
    cannot be a dictionary key: once every key has been read,
    [source_link] raises [TypeError]. *)
Theorem unhashable_record_aborts keys recs :
  Forall2 (resolves_value svc) keys recs ->
  Exists (fun r => hashable (fst r) && hashable (snd r) = false) recs ->
  source_link svc keys = Raise TypeError.
Proof.
  intros Hk Hu. rewrite source_link_eq, (source_loop_values _ _ Hk).
  cbn [bind app]. rewrite (fromkeys_unhashable recs [] Hu). reflexivity.
Qed.

End BuilderRecords.

(** ** Further properties of the trace interpreter *)

Lemma event_loop_raise before e after x :
  Forall well_formed_event before ->
  (forall st, event_step st e = Raise x) ->
  forall st, for_each event_step (before ++ e :: after) st = Raise x.
Proof.
  intros Hb He st. rewrite for_each_app.
  destruct (event_loop_total _ Hb st) as (st' & ->).
  cbn [bind for_each]. rewrite He. reflexivity.
Qed.

Lemma query_loop_raise pre t post x :
  Forall accepted pre ->
  (forall q, query_step q t = Raise x) ->
  forall q, for_each query_step (pre ++ t :: post) q = Raise x.
Proof.
  intros Hp Ht q. rewrite for_each_app.
  destruct (query_loop_total _ Hp q) as (q' & ->).
  cbn [bind for_each]. rewrite Ht. reflexivity.
Qed.

Lemma observation_fields t obs :
  observation t = Some obs ->
  exists dtr dot,
    field t "trace" = Some (VDict dtr) /\
    lookup (lit "orchestrationTrace") dtr = Some (VDict dot) /\
    lookup (lit "observation") dot = Some obs.
Proof.
  unfold observation. intros H.
  destruct (field t "trace") as [tr|] eqn:Htr; [|discriminate].
  destruct (field tr "orchestrationTrace") as [ot|] eqn:Hot;
    [|discriminate].
  destruct (field_dict _ _ _ Hot) as (dtr & ->).
  destruct (field_dict _ _ _ H) as (dot & ->).
  exists dtr, dot. repeat split; assumption.
Qed.

Lemma query_step_at_observation q0 t obs :
  observation t = Some obs ->
  query_step q0 t =
  (ty <- getitem obs (lit "type") ;;
   if eq_str ty (lit "ACTION_GROUP") then
     out <- getitem obs (lit "actionGroupInvocationOutput") ;;
     text <- getitem out (lit "text") ;;
     extract_sql_query text
   else Ok q0).
Proof.
  intros H. destruct (observation_fields _ _ H) as (dtr & dot & Ht & Ho & Hb).
  unfold query_step. rewrite (field_getitem _ _ _ Ht).
  cbn [bind keys getitem]. rewrite key_in_lookup, Ho.
  cbn [bind keys getitem]. rewrite key_in_lookup, Hb. reflexivity.
Qed.

Lemma kb_step_at_observation t d :
  observation t = Some (VDict d) -> kb_step t = kb_branch (VDict d).
Proof.
  intros H. destruct (observation_fields _ _ H) as (dtr & dot & Ht & Ho & Hb).
  unfold kb_step, kb_branch. rewrite (field_getitem _ _ _ Ht).
  cbn [bind keys getitem field contains]. rewrite key_in_lookup, Ho.
  cbn [bind keys getitem]. rewrite key_in_lookup, Hb.
  cbn [bind contains getitem]. unfold has_key.
  destruct (lookup (lit "knowledgeBaseLookupOutput") d); reflexivity.
Qed.

Lemma kb_scan_raise pre : forall t post x,
  Forall accepted pre ->
  (forall t', In t' pre -> ~ has_kb_lookup t') ->
  kb_step t = Raise x ->
  extract_source_list_from_kb (pre ++ t :: post) = Raise x.
Proof.
  induction pre as [|p pre IH]; intros t post x Ha Hn Hk;
    cbn [app extract_source_list_from_kb].
  - rewrite Hk. reflexivity.
  - inversion Ha as [|y l Hp Hpre]; subst.
    rewrite (kb_step_skip p Hp); [|apply Hn; left; reflexivity].
    cbn [bind]. apply IH; [exact Hpre | | exact Hk].
    intros t' Hin. apply Hn. right. exact Hin.
Qed.

Lemma uri_step_missing acc r :
  (forall u, ~ uri_of r u) -> exists x, uri_step acc r = Raise x.
Proof.
  intros H. unfold uri_step.
  destruct (getitem r (lit "location")) as [loc|x] eqn:Hl;
    [|exists x; reflexivity].
  cbn [bind].
  destruct (getitem loc (lit "s3Location")) as [s3|x] eqn:Hs;
    [|exists x; reflexivity].
  cbn [bind].
  destruct (getitem s3 (lit "uri")) as [u|x] eqn:Hu;
    [|exists x; reflexivity].
  exfalso. apply (H u). exists loc, s3.
  repeat split; apply getitem_field; assumption.
Qed.

Section InterpreterMore.

Variable svc : Services.

(** X11.  A chunk whose bytes are not UTF-8 text ends the interpretation
    with [UnicodeDecodeError], also when a later chunk would decode. *)
Theorem undecodable_chunk_aborts response before e after chunk b :
  completion_of response (before ++ e :: after) ->
  Forall well_formed_event before ->
  field e "chunk" = Some chunk ->
  field chunk "bytes" = Some (VBytes b) ->
  utf8_decode b = None ->
  get_agent_response svc response = Raise UnicodeDecodeError.
Proof.
  intros Hc Hb He Hk Hu.
  rewrite (get_agent_response_eq svc _ _ Hc),
    (event_loop_raise before e after UnicodeDecodeError Hb);
    [reflexivity|].
  intros [tl ct]. destruct (field_dict _ _ _ He) as (d & ->).
  unfold event_step. cbn [keys bind contains getitem field] in *.
  unfold has_key. rewrite He.
  destruct (lookup (lit "trace") d); cbn [bind];
    rewrite (field_getitem _ _ _ Hk); cbn [bind decode]; rewrite Hu;
    reflexivity.
Qed.

(** X12.  An event that is not a dictionary ends the interpretation with
    [AttributeError]. *)
Theorem event_without_keys_aborts response before e after :
  completion_of response (before ++ e :: after) ->
  Forall well_formed_event before ->
  (forall d, e <> VDict d) ->
  get_agent_response svc response = Raise AttributeError.
Proof.
  intros Hc Hb He.
  rewrite (get_agent_response_eq svc _ _ Hc),
    (event_loop_raise before e after AttributeError Hb);
    [reflexivity|].
  intros [tl ct]. unfold event_step.
  destruct e; try reflexivity. exfalso. exact (He d eq_refl).
Qed.

(** X13.  An observation without a type, or of type ACTION_GROUP without
    an output text, ends the interpretation with [KeyError]: the loop
    that looks for the query stands outside the [try]. *)
Theorem incomplete_observation_aborts response events pre t post obs :
  completion_of response events ->
  Forall well_formed_event events ->
  collected_traces events = pre ++ t :: post ->
  Forall accepted pre ->
  observation t = Some obs ->
  incomplete_observation obs ->
  get_agent_response svc response = Raise KeyError.
Proof.
  intros Hc Hwf Ht Hpre Ho (d & -> & Hd).
  destruct (event_loop_total _ Hwf ([], None)) as ([tl ct] & Hev).
  pose proof (event_loop _ _ _ _ _ Hev) as Htl. cbn [app] in Htl.
  subst tl.
  rewrite (get_agent_response_eq svc _ _ Hc), Hev. cbn [bind fst].
  rewrite Ht, (query_loop_raise pre t post KeyError Hpre); [reflexivity|].
  intros q. rewrite (query_step_at_observation q t _ Ho). cbn [getitem].
  destruct Hd as [Hty | (Hty & [Hout | (o & Hout & Htext)])];
    rewrite Hty; cbn [bind]; [reflexivity | |].
  - assert (Hag : eq_str (VStr (lit "ACTION_GROUP")) (lit "ACTION_GROUP")
                  = true) by (apply eq_str_true; reflexivity).
    rewrite Hag, Hout. reflexivity.
  - assert (Hag : eq_str (VStr (lit "ACTION_GROUP")) (lit "ACTION_GROUP")
                  = true) by (apply eq_str_true; reflexivity).
    rewrite Hag, Hout. cbn [bind getitem]. rewrite Htext. reflexivity.
Qed.

(** X14.  An error inside the knowledge-base scan is swallowed: when a
    retrieved reference of the first lookup has no storage URI, the
    provenance is the empty string and the answer is still returned. *)
Theorem broken_reference_gives_empty_provenance
    response events pre t post d kb good r rest uris text src :
  completion_of response events ->
  collected_traces events = pre ++ t :: post ->
  (forall t' q, In t' (collected_traces events) -> ~ yields_query t' q) ->
  (forall t', In t' pre -> ~ has_kb_lookup t') ->
  observation t = Some (VDict d) ->
  lookup (lit "knowledgeBaseLookupOutput") d = Some kb ->
  field kb "retrievedReferences" = Some (VList (good ++ r :: rest)) ->
  Forall2 uri_of good uris ->
  (forall u, ~ uri_of r u) ->
  get_agent_response svc response = Ok (Answer text src) ->
  src = VStr [].
Proof.
  intros Hc Ht Hy Hn Ho Hkb Hrefs Hgood Hr H.
  destruct (get_agent_response_answer svc _ _ _ _ Hc H)
    as (q & _ & Hq & Hs).
  rewrite (query_loop_none _ _ Hq Hy) in Hs.
  apply query_loop_accepted in Hq. rewrite Ht in Hq, Hs.
  apply Forall_app in Hq as [Hpre _].
  destruct (uri_step_missing ([] ++ uris) r Hr) as (x & Hx).
  assert (Hk : kb_step t = Raise x).
  { rewrite (kb_step_at_observation t d Ho). unfold kb_branch.
    cbn [field]. rewrite Hkb, (field_getitem _ _ _ Hrefs).
    cbn [bind iter]. rewrite for_each_app, (uri_loop _ _ Hgood).
    cbn [bind for_each]. rewrite Hx. reflexivity. }
  rewrite (kb_scan_raise pre t post x Hpre Hn Hk) in Hs.
  cbn [try_except Exception] in Hs. congruence.
Qed.

End InterpreterMore.

(** ** The handler *)

Lemma kb_scan_value traces : forall v,
  extract_source_list_from_kb traces = Ok v ->
  v = VNone \/ exists l, v = VList l.
Proof.
  induction traces as [|t traces IH]; intros v H;
    cbn [extract_source_list_from_kb] in H.
  - left. congruence.
  - apply bind_ok in H as ([l|] & _ & H).
    + right. exists l. congruence.
    + apply IH. exact H.
Qed.

Section Handler.

Variable svc : Services.

Lemma get_agent_response_provenance response text src :
  get_agent_response svc response = Ok (Answer text src) ->
  src = VNone \/ (exists s, src = VStr s) \/ (exists l, src = VList l).
Proof.
  unfold get_agent_response. intros H.
  apply bind_ok in H as (has & _ & H).
  destruct (negb has); [discriminate H|].
  apply bind_ok in H as (completion & _ & H).
  apply bind_ok in H as (events & _ & H).
  apply bind_ok in H as ([tl ct] & _ & H).
  apply bind_ok in H as (q & _ & H).
  apply bind_ok in H as (src' & Hs & H).
  destruct ct; [|discriminate H]. injection H as _ <-.
  destruct q as [[|c r]|].
  - destruct (extract_source_list_from_kb tl) as [v|x] eqn:Hk;
      cbn [try_except Exception] in Hs; injection Hs as <-.
    + destruct (kb_scan_value _ _ Hk) as [->|(l & ->)]; eauto.
    + right. left. eauto.
  - injection Hs as <-. right. left. eauto.
  - destruct (extract_source_list_from_kb tl) as [v|x] eqn:Hk;
      cbn [try_except Exception] in Hs; injection Hs as <-.
    + destruct (kb_scan_value _ _ Hk) as [->|(l & ->)]; eauto.
    + right. left. eauto.
Qed.

Lemma build_output_shape response output :
  build_output svc response = Ok output ->
  exists answer source,
    output = VDict [(lit "answer", VStr answer); (lit "source", source)] /\
    (source = VNone \/ exists s, source = VStr s).
Proof.
  unfold build_output. intros H.
  apply bind_ok in H as (r & Hr & H).
  apply bind_ok in H as ([a src] & Hp & H).
  apply bind_ok in H as (ref & Href & H). injection H as <-.
  destruct r as [m|text src0].
  - destruct m as [|x [|y [|z m]]]; try discriminate Hp.
    injection Hp as <- <-. injection Href as <-.
    exists [x], (VStr [y]). split; [reflexivity | right; eauto].
  - injection Hp as <- <-. exists text, ref. split; [reflexivity|].
    destruct (get_agent_response_provenance _ _ _ Hr)
      as [->|[(s & ->)|(l & ->)]].
    + injection Href as <-. left. reflexivity.
    + injection Href as <-. right. eauto.
    + apply bind_ok in Href as (s & _ & Href). injection Href as <-.
      right. eauto.
Qed.

(** X15.  Whenever [lambda_handler] returns, the status code is 200 and
    the body is the serialisation of a dictionary with a text under
    [answer] and, under [source], a text or [None]; a list of keys never
    leaves the handler. *)
Theorem handler_response_shape event v :
  lambda_handler svc event = Ok v ->
  exists answer source dumped,
    v = VDict [(lit "statusCode", VInt 200); (lit "body", VStr dumped)] /\
    json_dumps svc
      (VDict [(lit "answer", VStr answer); (lit "source", source)])
    = Ok dumped /\
    (source = VNone \/ exists s, source = VStr s).
Proof.
  unfold lambda_handler. intros H.
  apply bind_ok in H as (d0 & _ & H).
  apply bind_ok in H as (raw & _ & H).
  apply bind_ok in H as (body & _ & H).
  apply bind_ok in H as (query & _ & H).
  apply bind_ok in H as (session_id & _ & H).
  apply bind_ok in H as (response & _ & H).
  apply bind_ok in H as (output & Ho & H).
  apply bind_ok in H as (dumped & Hd & H). injection H as <-.
  destruct (build_output_shape _ _ Ho) as (answer & source & -> & Hs).
  exists answer, source, dumped. repeat split; assumption.
Qed.



End Handler.

(** ** The alias with the highest version *)

Section AliasSearch.

Variable num : Numerals.

Local Open Scope Z_scope.

Lemma version_step_none st summary :
  version_entry num summary None -> version_step num st summary = Ok st.
Proof.
  intros (routing & Hr & [Ht | (first & v & Ht & Hf & Hv & Hd)]);
    unfold version_step; rewrite (field_getitem _ _ _ Hr); cbn [bind];
    rewrite Ht; [reflexivity|].
  rewrite Hf. cbn [bind]. rewrite (field_getitem _ _ _ Hv). cbn [bind].
  rewrite Hd. reflexivity.
Qed.

Lemma version_step_some st summary n alias_id :
  version_entry num summary (Some (n, alias_id)) ->
  version_step num st summary
  = Ok (match fst st with
        | None => (Some n, alias_id)
        | Some h => if h <? n then (Some n, alias_id) else st
        end).
Proof.
  intros (routing & Hr & first & v & Ht & Hf & Hv & Hd & Hn & Hid).
  unfold version_step. rewrite (field_getitem _ _ _ Hr). cbn [bind].
  rewrite Ht, Hf. cbn [bind]. rewrite (field_getitem _ _ _ Hv).
  cbn [bind]. rewrite Hd. cbn [bind].
  destruct (fst st) as [h|]; cbn [bind]; rewrite Hn; cbn [bind].
  - destruct (h <? n); [|reflexivity].
    rewrite (field_getitem _ _ _ Hid). reflexivity.
  - rewrite (field_getitem _ _ _ Hid). reflexivity.
Qed.

(** The search from a version [h] on: it keeps [h] when no later offer is
    higher, and otherwise ends at the first of the highest offers. *)
Lemma version_loop_from summaries os :
  Forall2 (version_entry num) summaries os ->
  forall h hid,
    (for_each (version_step num) summaries (Some h, hid) = Ok (Some h, hid)
     /\ forall m i, In (m, i) (offers os) -> m <= h) \/
    (exists pre n alias_id post,
       offers os = pre ++ (n, alias_id) :: post /\
       h < n /\
       (forall m i, In (m, i) pre -> m < n) /\
       (forall m i, In (m, i) post -> m <= n) /\
       for_each (version_step num) summaries (Some h, hid)
       = Ok (Some n, alias_id)).
Proof.
  induction 1 as [|summary o summaries os Ho _ IH]; intros h hid.
  - left. split; [reflexivity|]. intros m i [].
  - cbn [for_each]. destruct o as [[n alias_id]|].
    + rewrite (version_step_some _ _ _ _ Ho). cbn [bind fst].
      change (offers (Some (n, alias_id) :: os))
        with ((n, alias_id) :: offers os).
      destruct (Z.ltb_spec h n) as [Hlt|Hge].
      * destruct (IH n alias_id)
          as [(-> & Hle)
             | (pre & n' & id' & post & E & Hn' & Hpre & Hpost & ->)].
        -- right. exists [], n, alias_id, (offers os).
           repeat split; [exact Hlt | intros m i [] | exact Hle].
        -- right. exists ((n, alias_id) :: pre), n', id', post.
           rewrite E. repeat split; try assumption; [lia|].
           intros m i [[= <- <-]|Hin]; [exact Hn' | eauto].
      * destruct (IH h hid)
          as [(-> & Hle)
             | (pre & n' & id' & post & E & Hn' & Hpre & Hpost & ->)].
        -- left. split; [reflexivity|].
           intros m i [[= <- <-]|Hin]; [exact Hge | eauto].
        -- right. exists ((n, alias_id) :: pre), n', id', post.
           rewrite E. repeat split; try assumption.
           intros m i [[= <- <-]|Hin]; [lia | eauto].
    + rewrite (version_step_none _ _ Ho). cbn [bind]. apply IH.
Qed.

Lemma version_loop summaries os :
  Forall2 (version_entry num) summaries os ->
  (offers os = [] /\
   for_each (version_step num) summaries (None, VNone) = Ok (None, VNone))
  \/
  (exists pre n alias_id post,
     offers os = pre ++ (n, alias_id) :: post /\
     (forall m i, In (m, i) pre -> m < n) /\
     (forall m i, In (m, i) post -> m <= n) /\
     for_each (version_step num) summaries (None, VNone)
     = Ok (Some n, alias_id)).
Proof.
  induction 1 as [|summary o summaries os Ho Hrest IH].
  - left. split; reflexivity.
  - cbn [for_each]. destruct o as [[n alias_id]|].
    + rewrite (version_step_some _ _ _ _ Ho). cbn [bind fst].
      change (offers (Some (n, alias_id) :: os))
        with ((n, alias_id) :: offers os).
      right.
      destruct (version_loop_from _ _ Hrest n alias_id)
        as [(-> & Hle) | (pre & n' & id' & post & E & Hn' & Hpre & Hpost & ->)].
      * exists [], n, alias_id, (offers os).
        repeat split; [intros m i [] | exact Hle].
      * exists ((n, alias_id) :: pre), n', id', post.
        rewrite E. repeat split; try assumption.
        intros m i [[= <- <-]|Hin]; [exact Hn' | eauto].
    + rewrite (version_step_none _ _ Ho). cbn [bind]. exact IH.
Qed.

(** X18.  [get_highest_agent_version_alias_id] returns the alias id of
    the first summary that offers the highest version; summaries with an
    empty routing configuration or a version that is not made of digits
    offer nothing, and without an offer the result is [None]. *)
Theorem highest_version_alias response summaries os :
  alias_summaries response summaries ->
  Forall2 (version_entry num) summaries os ->
  (offers os = [] /\
   get_highest_agent_version_alias_id num response = Ok VNone) \/
  (exists pre n alias_id post,
     offers os = pre ++ (n, alias_id) :: post /\
     (forall m i, In (m, i) pre -> m < n) /\
     (forall m i, In (m, i) post -> m <= n) /\
     get_highest_agent_version_alias_id num response = Ok alias_id).
Proof.
  intros Hr Hos.
  assert (Hg : get_highest_agent_version_alias_id num response
               = (st <- for_each (version_step num) summaries (None, VNone) ;;
                  Ok (snd st))).
  { unfold get_highest_agent_version_alias_id.
    destruct Hr as [Hr | (d & -> & Hd & ->)].
    - destruct (field_dict _ _ _ Hr) as (d & ->).
      cbn [dict_get field] in *. rewrite Hr. reflexivity.
    - cbn [dict_get]. rewrite Hd. reflexivity. }
  rewrite Hg.
  destruct (version_loop _ _ Hos)
    as [(E & ->) | (pre & n & alias_id & post & E & Hpre & Hpost & ->)].
  - left. split; [exact E | reflexivity].
  - right. exists pre, n, alias_id, post. repeat split; assumption.
Qed.

End AliasSearch.

Section AliasErrors.

Variable num : Numerals.

Lemma version_loop_total summaries os st :
  Forall2 (version_entry num) summaries os ->
  exists st', for_each (version_step num) summaries st = Ok st'.
Proof.
  intros H. revert st.
  induction H as [|summary o summaries os Ho _ IH]; intros st;
    cbn [for_each].
  - eexists. reflexivity.
  - destruct o as [[n alias_id]|].
    + rewrite (version_step_some _ _ _ _ _ Ho). cbn [bind]. apply IH.
    + rewrite (version_step_none _ _ _ Ho). cbn [bind]. apply IH.
Qed.

(** X19.  A version that [isdigit] accepts and [int] rejects ends the
    search with the error of [int]. *)
Theorem rejected_version_aborts
    response pre os summary post routing first v x :
  alias_summaries response (pre ++ summary :: post) ->
  Forall2 (version_entry num) pre os ->
  field summary "routingConfiguration" = Some routing ->
  truth routing = true ->
  getitem0 routing = Ok first ->
  field first "agentVersion" = Some v ->
  isdigit num v = Ok true ->
  to_int num v = Raise x ->
  get_highest_agent_version_alias_id num response = Raise x.
Proof.
  intros Hr Hpre Hrouting Ht Hf Hv Hd Hx.
  assert (Hg : get_highest_agent_version_alias_id num response
               = (st <- for_each (version_step num)
                          (pre ++ summary :: post) (None, VNone) ;;
                  Ok (snd st))).
  { unfold get_highest_agent_version_alias_id.
    destruct Hr as [Hr | (d & -> & Hd' & Hnil)].
    - destruct (field_dict _ _ _ Hr) as (d & ->).
      cbn [dict_get field] in *. rewrite Hr. reflexivity.
    - destruct pre; discriminate Hnil. }
  rewrite Hg, for_each_app.
  destruct (version_loop_total pre os (None, VNone) Hpre) as (st & ->).
  cbn [bind for_each]. unfold version_step at 1.
  rewrite (field_getitem _ _ _ Hrouting). cbn [bind].
  rewrite Ht, Hf. cbn [bind]. rewrite (field_getitem _ _ _ Hv).
  cbn [bind]. rewrite Hd. cbn [bind].
  destruct (fst st) as [h|]; cbn [bind]; rewrite Hx; reflexivity.
Qed.

End AliasErrors.

(** ** The further properties at concrete inputs *)

Section MoreExamples.

Import Fixture.

Local Open Scope string_scope.

Ltac not_in_list :=
  let H := fresh "H" in
  intros H; vm_compute in H;
  repeat (destruct H as [H|H]; [discriminate H|]); exact H.

Ltac refute_yields H :=
  let obs := fresh "obs" in
  let out := fresh "out" in
  let text := fresh "text" in
  let Ho := fresh "Ho" in
  let Hty := fresh "Hty" in
  let Hout := fresh "Hout" in
  let Htext := fresh "Htext" in
  let He := fresh "He" in
  destruct H as (obs & out & text & Ho & Hty & Hout & Htext & He);
  vm_compute in Ho; injection Ho as <-;
  vm_compute in Hty; try discriminate Hty;
  vm_compute in Hout; injection Hout as <-;
  vm_compute in Htext; injection Htext as <-;
  vm_compute in He; discriminate He.

Ltac refute_action_group H :=
  let obs := fresh "obs" in
  let Ho := fresh "Ho" in
  let Hty := fresh "Hty" in
  destruct H as (obs & Ho & Hty);
  vm_compute in Ho; injection Ho as <-;
  vm_compute in Hty; discriminate Hty.

Ltac refute_kb_lookup H :=
  let obs := fresh "obs" in
  let kb := fresh "kb" in
  let Ho := fresh "Ho" in
  let Hkb := fresh "Hkb" in
  destruct H as (obs & kb & Ho & Hkb);
  vm_compute in Ho; injection Ho as <-;
  vm_compute in Hkb; discriminate Hkb.

Ltac resolve_record body :=
  exists body; split;
  [ eexists; eexists; split; vm_compute; reflexivity
  | try (vm_compute; reflexivity);
    eexists; eexists; repeat split; vm_compute; reflexivity ].

Lemma no_line_break_no_query_witness :
  extract_sql_query (VStr (lit "select a from b")) = Ok None.
Proof.
  apply (no_line_break_no_query (lit "select a from b")). not_in_list.
Defined.

Lemma query_shape_witness :
  (exists a b,
     lit ("The query: SELECT 1 " ++ nl ++ "Returned information: x")
     = (a ++ lit "SELECT 1" ++ b)%list) /\
  select_at (lit "SELECT 1") /\
  (exists x d, lit "SELECT 1" = (x ++ [d])%list /\ isspace d = false).
Proof.
  apply (query_shape
           (lit ("The query: SELECT 1 " ++ nl ++ "Returned information: x"))
           (lit "SELECT 1")).
  vm_compute. reflexivity.
Defined.

Lemma query_before_returned_information_witness :
  extract_sql_query
    (VStr (lit "query: " ++ lit "select"
             ++ lit (" a" ++ nl ++ "  from b ")
             ++ Re.NL :: lit "  " ++ lit "returned Information: 2 rows")%list)
  = Ok (Some (strip (lit "select" ++ lit (" a" ++ nl ++ "  from b "))%list)).
Proof.
  apply (query_before_returned_information
           (lit "query: ") (lit "select")
           (lit (" a" ++ nl ++ "  from b "))
           (lit "  ") (lit "returned Information: 2 rows")).
  - repeat constructor.
  - repeat constructor.
  - intros b1 b2 E. vm_compute in E.
    do 2 (destruct b1 as [|? b1]; [discriminate E | injection E as _ E]).
    destruct b1 as [|? b1].
    + injection E as <-.
      exists (lit "  "), 102%N, (lit "rom b ").
      repeat split; repeat constructor.
    + injection E as _ E.
      repeat (destruct b1 as [|? b1];
              [discriminate E | injection E as _ E]).
      destruct b1; discriminate E.
  - repeat constructor.
  - exists (lit "returned Information"), (lit ": 2 rows").
    split; [reflexivity | repeat constructor].
Defined.

Lemma bucket_and_object_of_uri_witness :
  bucket_and_object
    (VStr (lit "s3:" ++ lit "//" ++ lit "b" ++ 47%N :: lit "dir/k1")%list)
  = Ok (lit "b", lit "dir/k1") /\
  bucket_and_object (VStr (lit "s3:" ++ lit "//" ++ lit "b")%list)
  = Ok (lit "b", []).
Proof.
  apply (bucket_and_object_of_uri (lit "s3:") (lit "b") (lit "dir/k1")).
  - reflexivity.
  - not_in_list.
  - reflexivity.
Defined.

Lemma second_double_slash_cuts_path_witness :
  bucket_and_object
    (VStr (lit "s3:" ++ lit "//" ++ (lit "b" ++ 47%N :: lit "dir")
             ++ lit "//" ++ lit "k1")%list)
  = Ok (lit "b", lit "dir").
Proof.
  apply (second_double_slash_cuts_path
           (lit "s3:") (lit "b") (lit "dir") (lit "k1")).
  - reflexivity.
  - not_in_list.
  - reflexivity.
Defined.

Lemma key_without_separator_aborts_witness :
  bucket_and_object (VStr (lit "b/k4")) = Raise IndexError /\
  source_link library ([key "s3://b/k1"] ++ VStr (lit "b/k4") :: [])%list
  = Raise IndexError.
Proof.
  apply (key_without_separator_aborts library
           [key "s3://b/k1"] [Some (lit "A", lit "L1")] (lit "b/k4") []).
  - repeat constructor. resolve_record (bytes_of "A1").
  - reflexivity.
Defined.

Lemma read_error_aborts_witness :
  source_link library
    ([key "s3://b/k1"] ++ key "s3://b/gone" :: [key "s3://b/k4"])%list
  = Raise ClientError.
Proof.
  apply (read_error_aborts library
           [key "s3://b/k1"] [Some (lit "A", lit "L1")]
           (key "s3://b/gone") (lit "b") (lit "gone") [key "s3://b/k4"]).
  - repeat constructor. resolve_record (bytes_of "A1").
  - reflexivity.
  - reflexivity.
Defined.

Lemma json_error_aborts_witness :
  source_link shelf
    ([key "s3://b/k1"] ++ key "s3://b/k7" :: [key "s3://b/k1"])%list
  = Raise JSONDecodeError.
Proof.
  apply (json_error_aborts shelf
           [key "s3://b/k1"] [Some (lit "A", lit "L1")]
           (key "s3://b/k7") (bytes_of "junk") (lit "junk")
           [key "s3://b/k1"] JSONDecodeError).
  - repeat constructor. resolve_record (bytes_of "A1").
  - eexists; eexists; split; vm_compute; reflexivity.
  - vm_compute. reflexivity.
  - reflexivity.
Defined.

Lemma repeated_record_adds_nothing_witness :
  source_link library
    ([key "s3://b/k1"; key "s3://b/k4"] ++ key "s3://b/k3"
       :: [key "s3://b/k2"])%list
  = source_link library
      ([key "s3://b/k1"; key "s3://b/k4"] ++ [key "s3://b/k2"])%list.
Proof.
  apply (repeated_record_adds_nothing library
           [key "s3://b/k1"; key "s3://b/k4"]
           [Some (lit "A", lit "L1"); Some (lit "B", lit "L2")]
           (key "s3://b/k3") (lit "A", lit "L1")
           [key "s3://b/k2"] [None]).
  - repeat constructor.
    + resolve_record (bytes_of "A1").
    + resolve_record (bytes_of "B2").
  - resolve_record (bytes_of "A1").
  - left. reflexivity.
  - repeat constructor. resolve_record [xff].
Defined.

Lemma unhashable_record_aborts_witness :
  source_link shelf [key "s3://b/k1"; key "s3://b/k6"] = Raise TypeError.
Proof.
  apply (unhashable_record_aborts shelf
           [key "s3://b/k1"; key "s3://b/k6"]
           [(VStr (lit "A"), VStr (lit "L1")); (VStr (lit "A"), VList [])]).
  - repeat constructor.
    + exists (bytes_of "A1"), (lit "A1"),
        (dict [("Url", VStr (lit "L1")); ("Topic", VStr (lit "A"))]).
      repeat split; try (vm_compute; reflexivity).
      eexists; eexists; split; vm_compute; reflexivity.
    + exists (bytes_of "L"), (lit "L"),
        (dict [("Url", VList []); ("Topic", VStr (lit "A"))]).
      repeat split; try (vm_compute; reflexivity).
      eexists; eexists; split; vm_compute; reflexivity.
  - right. left. reflexivity.
Defined.

Lemma undecodable_chunk_aborts_witness :
  get_agent_response plain
    (stream ([chunk_event "a"] ++ broken_chunk :: [chunk_event "ok"])%list)
  = Raise UnicodeDecodeError.
Proof.
  apply (undecodable_chunk_aborts plain
           (stream ([chunk_event "a"] ++ broken_chunk
                      :: [chunk_event "ok"])%list)
           [chunk_event "a"] broken_chunk [chunk_event "ok"]
           (dict [("bytes", VBytes [xff])]) [xff]).
  - reflexivity.
  - repeat constructor.
    eexists; split; [reflexivity|]. intros chunk H. vm_compute in H.
    injection H as <-. eexists; eexists; split; vm_compute; reflexivity.
  - reflexivity.
  - reflexivity.
  - reflexivity.
Defined.

Lemma event_without_keys_aborts_witness :
  get_agent_response plain
    (stream ([chunk_event "ok"] ++ VStr (lit "chunk") :: [])%list)
  = Raise AttributeError.
Proof.
  apply (event_without_keys_aborts plain
           (stream ([chunk_event "ok"] ++ VStr (lit "chunk") :: [])%list)
           [chunk_event "ok"] (VStr (lit "chunk")) []).
  - reflexivity.
  - repeat constructor.
    eexists; split; [reflexivity|]. intros chunk H. vm_compute in H.
    injection H as <-. eexists; eexists; split; vm_compute; reflexivity.
  - intros d H. discriminate H.
Defined.

Lemma incomplete_observation_aborts_witness :
  get_agent_response plain
    (stream [trace_event (kb_lookup []);
             trace_event (dict [("type", VStr (lit "ACTION_GROUP"))]);
             chunk_event "ok"])
  = Raise KeyError.
Proof.
  apply (incomplete_observation_aborts plain
           (stream [trace_event (kb_lookup []);
                    trace_event (dict [("type", VStr (lit "ACTION_GROUP"))]);
                    chunk_event "ok"])
           [trace_event (kb_lookup []);
            trace_event (dict [("type", VStr (lit "ACTION_GROUP"))]);
            chunk_event "ok"]
           [trace_record (kb_lookup [])]
           (trace_record (dict [("type", VStr (lit "ACTION_GROUP"))]))
           []
           (dict [("type", VStr (lit "ACTION_GROUP"))])).
  - reflexivity.
  - repeat constructor;
      (eexists; split; [reflexivity|]; intros chunk H; vm_compute in H;
       first [discriminate H
             | injection H as <-; eexists; eexists; split;
               vm_compute; reflexivity]).
  - reflexivity.
  - repeat constructor. exists None. eexists. vm_compute. reflexivity.
  - reflexivity.
  - eexists. split; [reflexivity|]. right. split; [reflexivity|].
    left. reflexivity.
Defined.

Lemma broken_reference_gives_empty_provenance_witness :
  exists src,
    get_agent_response plain
      (stream [trace_event broken_lookup; chunk_event "ok"])
    = Ok (Answer (lit "ok") src) /\
    src = VStr [].
Proof.
  exists (VStr []). split; [vm_compute; reflexivity|].
  apply (broken_reference_gives_empty_provenance plain
           (stream [trace_event broken_lookup; chunk_event "ok"])
           [trace_event broken_lookup; chunk_event "ok"]
           [] (trace_record broken_lookup) []
           [(lit "type", VStr (lit "KNOWLEDGE_BASE"));
            (lit "knowledgeBaseLookupOutput",
             dict [("retrievedReferences",
                    VList [reference "s3://b/k1"; dict []])])]
           (dict [("retrievedReferences",
                   VList [reference "s3://b/k1"; dict []])])
           [reference "s3://b/k1"] (dict []) [] [key "s3://b/k1"]
           (lit "ok")).
  - reflexivity.
  - reflexivity.
  - intros t' q [<-|[]] H.
    destruct H as (obs & out & text & Ho & Hty & _).
    vm_compute in Ho. injection Ho as <-.
    vm_compute in Hty. discriminate Hty.
  - intros t' [].
  - reflexivity.
  - reflexivity.
  - reflexivity.
  - repeat constructor.
    eexists; eexists; repeat split; vm_compute; reflexivity.
  - intros u (loc & s3 & Hl & _). vm_compute in Hl. discriminate Hl.
  - vm_compute. reflexivity.
Defined.

Lemma handler_response_shape_witness :
  exists answer source dumped,
    VDict [(lit "statusCode", VInt 200); (lit "body", VStr (lit "{}"))]
    = VDict [(lit "statusCode", VInt 200); (lit "body", VStr dumped)] /\
    json_dumps analyst
      (VDict [(lit "answer", VStr answer); (lit "source", source)])
    = Ok dumped /\
    (source = VNone \/ exists s, source = VStr s).
Proof.
  apply (handler_response_shape analyst request).
  vm_compute. reflexivity.
Defined.



Ltac offer_version :=
  eexists; split; [reflexivity|];
  eexists; eexists; repeat split; vm_compute; reflexivity.

Lemma highest_version_alias_witness :
  (offers [Some (2%Z, VStr (lit "A")); Some (10%Z, VStr (lit "B")); None;
           Some (10%Z, VStr (lit "C")); None] = [] /\
   get_highest_agent_version_alias_id numerals aliases = Ok VNone) \/
  (exists pre n alias_id post,
     offers [Some (2%Z, VStr (lit "A")); Some (10%Z, VStr (lit "B")); None;
             Some (10%Z, VStr (lit "C")); None]
     = (pre ++ (n, alias_id) :: post)%list /\
     (forall m i, In (m, i) pre -> (m < n)%Z) /\
     (forall m i, In (m, i) post -> (m <= n)%Z) /\
     get_highest_agent_version_alias_id numerals aliases = Ok alias_id).
Proof.
  apply (highest_version_alias numerals aliases
           [alias "A" ["2"]; alias "B" ["10"]; alias "T" ["DRAFT"];
            alias "C" ["10"]; alias "D" []]).
  - left. reflexivity.
  - repeat constructor.
    + offer_version.
    + offer_version.
    + eexists; split; [reflexivity|]. right.
      eexists; eexists; repeat split; vm_compute; reflexivity.
    + offer_version.
    + eexists; split; [reflexivity|]. left. reflexivity.
Defined.

Lemma rejected_version_aborts_witness :
  get_highest_agent_version_alias_id superscripts
    (dict [("agentAliasSummaries",
            VList ([alias "A" ["2"]]
                     ++ dict [("agentAliasId", VStr (lit "Q"));
                              ("routingConfiguration",
                               VList [dict [("agentVersion",
                                             VStr [178%N])]])]
                     :: [alias "B" ["10"]])%list)])
  = Raise ValueError.
Proof.
  apply (rejected_version_aborts superscripts
           (dict [("agentAliasSummaries",
                   VList ([alias "A" ["2"]]
                            ++ dict [("agentAliasId", VStr (lit "Q"));
                                     ("routingConfiguration",
                                      VList [dict [("agentVersion",
                                                    VStr [178%N])]])]
                            :: [alias "B" ["10"]])%list)])
           [alias "A" ["2"]] [Some (2%Z, VStr (lit "A"))]
           (dict [("agentAliasId", VStr (lit "Q"));
                  ("routingConfiguration",
                   VList [dict [("agentVersion", VStr [178%N])]])])
           [alias "B" ["10"]]
           (VList [dict [("agentVersion", VStr [178%N])]])
           (dict [("agentVersion", VStr [178%N])])
           (VStr [178%N]) ValueError).
  - left. reflexivity.
  - repeat constructor. offer_version.
  - reflexivity.
  - reflexivity.
  - reflexivity.
  - reflexivity.
  - reflexivity.
  - reflexivity.
Defined.

End MoreExamples.
